(** * websocket-server: a shallow embedding of the event-routing core

    The development follows the modular sources:
    - [src/unnamed/part_003] (RedisService: the bus listener),
    - [src/unnamed/part_002] (helpers: extractGroupIdFromChannel, getRoomClientCount),
    - [src/src/services/broadcast.js] (BroadcastService),
    - [src/src/services/connectionManager.js] (ConnectionManager),
    - [src/src/handlers/socketHandlers.js] (SocketHandlers),
    and, for the universal [onAny] re-broadcast, the legacy entry point [src/server.js].

    JavaScript values that reach the code (bus payloads after JSON.parse,
    socket.io event arguments) are JSON values.  JS property access, truthiness
    and string conversion (template literals, [String(x)]) are written out on
    them, including the cases where JS throws a TypeError.  Thrown exceptions
    are part of the model: every handler runs in a state/output/exception
    monad, and output (socket.io emissions, BroadcastService calls) performed
    before a throw is kept, as in JS. *)

From Stdlib Require Import ZArith List String Ascii Bool Lia Permutation Sorted.
From Stdlib Require Import Numbers.DecimalString Numbers.DecimalPos.
Import ListNotations.
Open Scope string_scope.
Open Scope list_scope.
Set Warnings "-register-all".

(** ** JavaScript values *)

(** JSON values.  A number literal [m * 10^e] keeps its decimal mantissa and
    exponent, as written in the JSON text. *)
Inductive json : Type :=
| JNull
| JBool (b : bool)
| JNum (m : Z) (e : Z)
| JStr (s : string)
| JArr (l : list json)
| JObj (kvs : list (string * json)).

(** Own-property lookup on the result of JSON.parse: with duplicate keys the
    last one wins.  [None] is [undefined]. *)
Fixpoint assoc_last (k : string) (kvs : list (string * json)) : option json :=
  match kvs with
  | [] => None
  | (k', v) :: r =>
      match assoc_last k r with
      | Some w => Some w
      | None => if String.eqb k k' then Some v else None
      end
  end.

Definition has_key (k : string) (kvs : list (string * json)) : bool :=
  existsb (fun kv => String.eqb (fst kv) k) kvs.

(** Errors a JS computation can throw. *)
Inductive js_error : Type :=
| TypeError
| SyntaxError
| ReservedEventName.

(** [v.k] for a property name [k].  [null.k] throws; primitives, arrays and
    objects answer from their own properties (none of the property names read by
    the code -- event, data, groupId, groupName -- is inherited from a
    prototype). *)
Definition get_prop (v : json) (k : string) : option json :=
  match v with
  | JObj kvs => assoc_last k kvs
  | _ => None
  end.

(** JS truthiness of a value ([None] is [undefined]). *)
Definition truthy (v : option json) : bool :=
  match v with
  | None => false
  | Some JNull => false
  | Some (JBool b) => b
  | Some (JNum m _) => negb (Z.eqb m 0)
  | Some (JStr s) => negb (String.eqb s "")
  | Some (JArr _) => true
  | Some (JObj _) => true
  end.

(** Decimal digits of a natural number. *)
Definition Z_to_string (z : Z) : string :=
  NilEmpty.string_of_int (Z.to_int z).

Fixpoint zeros (n : nat) : string :=
  match n with O => "" | S k => String "0" (zeros k) end.

(** Strip trailing zeros of the mantissa while the exponent is negative. *)
Fixpoint normalize_num (fuel : nat) (m e : Z) : Z * Z :=
  match fuel with
  | O => (m, e)
  | S f =>
      if (e <? 0)%Z && (Z.rem m 10 =? 0)%Z && negb (m =? 0)%Z
      then normalize_num f (Z.quot m 10) (e + 1)
      else (m, e)
  end.

(** Number::toString for the decimal [m * 10^e] in plain positional
    notation.  JS switches to exponent notation outside [1e-6, 1e21) and
    rounds to the nearest double; the claims only convert small integers. *)
Definition num_to_string (m e : Z) : string :=
  let '(m', e') := if (m =? 0)%Z then (0%Z, 0%Z)
                   else normalize_num (Z.to_nat (Z.abs e)) m e in
  if (0 <=? e')%Z then Z_to_string (m' * 10 ^ e')
  else
    let sign := if (m' <? 0)%Z then "-" else "" in
    let ds := Z_to_string (Z.abs m') in
    let k := Z.to_nat (- e') in
    let ds' := if Nat.leb (String.length ds) k
               then (zeros (S k - String.length ds) ++ ds)%string else ds in
    let n := String.length ds' in
    (sign ++ substring 0 (n - k) ds' ++ "." ++ substring (n - k) k ds')%string.

(** ToString, as used by template literals and [String(x)].  An object with
    an own [toString] property (necessarily not callable, it came from JSON)
    makes ToPrimitive fall through to [valueOf], which returns the object
    itself: TypeError ([None]).  Arrays are joined with [","], null elements
    giving the empty string. *)
Fixpoint tostr (v : json) : option string :=
  match v with
  | JNull => Some "null"
  | JBool b => Some (if b then "true" else "false")
  | JNum m e => Some (num_to_string m e)
  | JStr s => Some s
  | JArr l =>
      (fix join (l : list json) : option string :=
         match l with
         | [] => Some ""
         | x :: r =>
             let ex := match x with JNull => Some "" | _ => tostr x end in
             match ex, r with
             | Some sx, [] => Some sx
             | Some sx, _ =>
                 match join r with
                 | Some sr => Some (sx ++ "," ++ sr)%string
                 | None => None
                 end
             | None, _ => None
             end
         end) l
  | JObj kvs => if has_key "toString" kvs then None else Some "[object Object]"
  end.

(** ToString of a possibly undefined value. *)
Definition tostr_u (v : option json) : option string :=
  match v with
  | None => Some "undefined"
  | Some x => tostr x
  end.

(** ** JSON.parse *)

Definition lchars := list ascii.

Definition is_ws (c : ascii) : bool :=
  match nat_of_ascii c with 9 | 10 | 13 | 32 => true | _ => false end.

Fixpoint skip_ws (s : lchars) : lchars :=
  match s with
  | c :: r => if is_ws c then skip_ws r else s
  | [] => []
  end.

Definition is_digit (c : ascii) : bool :=
  let n := nat_of_ascii c in Nat.leb 48 n && Nat.leb n 57.

Definition digit_val (c : ascii) : Z := Z.of_nat (nat_of_ascii c - 48).

Fixpoint take_digits (s : lchars) : lchars * lchars :=
  match s with
  | c :: r => if is_digit c then let '(d, r') := take_digits r in (c :: d, r')
              else ([], s)
  | [] => ([], [])
  end.

Definition digits_value (d : lchars) : Z :=
  fold_left (fun acc c => acc * 10 + digit_val c)%Z d 0%Z.

(** A JSON number: [-]? (0 | [1-9][0-9]* ) (. [0-9]+)? ([eE] [+-]? [0-9]+)? *)
Definition parse_number (s : lchars) : option (json * lchars) :=
  let '(neg, s1) := match s with "-"%char :: r => (true, r) | _ => (false, s) end in
  let int_part :=
    match s1 with
    | "0"%char :: r => Some (["0"%char], r)
    | c :: _ => if is_digit c then Some (take_digits s1) else None
    | [] => None
    end in
  match int_part with
  | None => None
  | Some (ip, s2) =>
      let frac :=
        match s2 with
        | "."%char :: r =>
            let '(fd, r') := take_digits r in
            match fd with [] => None | _ => Some (fd, r') end
        | _ => Some ([], s2)
        end in
      match frac with
      | None => None
      | Some (fd, s3) =>
          let expo :=
            match s3 with
            | c :: r =>
                if (Ascii.eqb c "e"%char || Ascii.eqb c "E"%char) then
                  let '(eneg, r1) :=
                    match r with
                    | "-"%char :: r' => (true, r')
                    | "+"%char :: r' => (false, r')
                    | _ => (false, r)
                    end in
                  let '(ed, r2) := take_digits r1 in
                  match ed with
                  | [] => None
                  | _ => Some ((if eneg then - digits_value ed else digits_value ed)%Z, r2)
                  end
                else Some (0%Z, s3)
            | [] => Some (0%Z, s3)
            end in
          match expo with
          | None => None
          | Some (ex, s4) =>
              let m := digits_value (ip ++ fd) in
              Some (JNum (if neg then - m else m)%Z (ex - Z.of_nat (List.length fd))%Z, s4)
          end
      end
  end.

Definition hex_val (c : ascii) : option Z :=
  let n := nat_of_ascii c in
  if Nat.leb 48 n && Nat.leb n 57 then Some (Z.of_nat (n - 48))
  else if Nat.leb 65 n && Nat.leb n 70 then Some (Z.of_nat (n - 55))
  else if Nat.leb 97 n && Nat.leb n 102 then Some (Z.of_nat (n - 87))
  else None.

(** A [\uXXXX] escape is stored as the UTF-8 bytes of its code unit (strings of
    this development are byte strings). *)
Definition utf8_of (u : Z) : lchars :=
  let b (z : Z) := ascii_of_nat (Z.to_nat z) in
  if (u <? 128)%Z then [b u]
  else if (u <? 2048)%Z then [b (192 + u / 64); b (128 + u mod 64)]%Z
  else [b (224 + u / 4096); b (128 + (u / 64) mod 64); b (128 + u mod 64)]%Z.

(** The characters of a JSON string after the opening quote, up to and
    including the closing one. *)
Fixpoint parse_string_body (fuel : nat) (s : lchars) : option (lchars * lchars) :=
  match fuel with
  | O => None
  | S f =>
      match s with
      | [] => None
      | "034"%char :: r => Some ([], r)
      | "\"%char :: c :: r =>
          let esc :=
            match nat_of_ascii c with
            | 34 => Some (["034"%char], r)
            | 92 => Some (["\"%char], r)
            | 47 => Some (["/"%char], r)
            | 98 => Some ([ascii_of_nat 8], r)
            | 102 => Some ([ascii_of_nat 12], r)
            | 110 => Some ([ascii_of_nat 10], r)
            | 114 => Some ([ascii_of_nat 13], r)
            | 116 => Some ([ascii_of_nat 9], r)
            | 117 =>
                match r with
                | h1 :: h2 :: h3 :: h4 :: r' =>
                    match hex_val h1, hex_val h2, hex_val h3, hex_val h4 with
                    | Some a, Some b, Some c', Some d =>
                        Some (utf8_of (((a * 16 + b) * 16 + c') * 16 + d)%Z, r')
                    | _, _, _, _ => None
                    end
                | _ => None
                end
            | _ => None
            end in
          match esc with
          | None => None
          | Some (cs, r') =>
              match parse_string_body f r' with
              | Some (body, rest) => Some (cs ++ body, rest)
              | None => None
              end
          end
      | c :: r =>
          if Nat.ltb (nat_of_ascii c) 32 then None
          else match parse_string_body f r with
               | Some (body, rest) => Some (c :: body, rest)
               | None => None
               end
      end
  end.

Definition parse_string (s : lchars) : option (string * lchars) :=
  match parse_string_body (S (List.length s)) s with
  | Some (body, rest) => Some (string_of_list_ascii body, rest)
  | None => None
  end.

(** Elements of an array after the first value parser call; [pv] parses one
    value. *)
Fixpoint parse_elems (pv : lchars -> option (json * lchars)) (fuel : nat)
    (s : lchars) (acc : list json) : option (list json * lchars) :=
  match fuel with
  | O => None
  | S f =>
      match pv s with
      | None => None
      | Some (v, r) =>
          match skip_ws r with
          | ","%char :: r' => parse_elems pv f r' (acc ++ [v])
          | "]"%char :: r' => Some (acc ++ [v], r')
          | _ => None
          end
      end
  end.

Fixpoint parse_members (pv : lchars -> option (json * lchars)) (fuel : nat)
    (s : lchars) (acc : list (string * json)) : option (list (string * json) * lchars) :=
  match fuel with
  | O => None
  | S f =>
      match skip_ws s with
      | "034"%char :: r =>
          match parse_string r with
          | None => None
          | Some (k, r1) =>
              match skip_ws r1 with
              | ":"%char :: r2 =>
                  match pv r2 with
                  | None => None
                  | Some (v, r3) =>
                      match skip_ws r3 with
                      | ","%char :: r4 => parse_members pv f r4 (acc ++ [(k, v)])
                      | "}"%char :: r4 => Some (acc ++ [(k, v)], r4)
                      | _ => None
                      end
                  end
              | _ => None
              end
          end
      | _ => None
      end
  end.

Fixpoint parse_value (fuel : nat) (s : lchars) : option (json * lchars) :=
  match fuel with
  | O => None
  | S f =>
      match skip_ws s with
      | "n"%char :: "u"%char :: "l"%char :: "l"%char :: r => Some (JNull, r)
      | "t"%char :: "r"%char :: "u"%char :: "e"%char :: r => Some (JBool true, r)
      | "f"%char :: "a"%char :: "l"%char :: "s"%char :: "e"%char :: r =>
          Some (JBool false, r)
      | "034"%char :: r =>
          match parse_string r with
          | Some (str, r') => Some (JStr str, r')
          | None => None
          end
      | "["%char :: r =>
          match skip_ws r with
          | "]"%char :: r' => Some (JArr [], r')
          | _ =>
              match parse_elems (parse_value f) (S (List.length r)) r [] with
              | Some (l, r') => Some (JArr l, r')
              | None => None
              end
          end
      | "{"%char :: r =>
          match skip_ws r with
          | "}"%char :: r' => Some (JObj [], r')
          | _ =>
              match parse_members (parse_value f) (S (List.length r)) r [] with
              | Some (kvs, r') => Some (JObj kvs, r')
              | None => None
              end
          end
      | s' => parse_number s'
      end
  end.

(** [JSON.parse(message)]: [None] is the SyntaxError it throws. *)
Definition json_parse (message : string) : option json :=
  let cs := list_ascii_of_string message in
  match parse_value (S (List.length cs)) cs with
  | Some (v, rest) => match skip_ws rest with [] => Some v | _ => None end
  | None => None
  end.

(** Message text written with single quotes standing for double quotes. *)
Fixpoint dq (s : string) : string :=
  match s with
  | EmptyString => EmptyString
  | String c r => String (if Ascii.eqb c "'"%char then "034"%char else c) (dq r)
  end.

(** ** Strings and ordered maps *)

Fixpoint starts_with (p s : string) : bool :=
  match p, s with
  | EmptyString, _ => true
  | String c p', String d s' => Ascii.eqb c d && starts_with p' s'
  | String _ _, EmptyString => false
  end.

(** [s.replace(pat, rep)] with a string pattern: the first occurrence only. *)
Fixpoint replace_first (pat rep s : string) : string :=
  if starts_with pat s then (rep ++ substring (String.length pat) (String.length s) s)%string
  else match s with
       | EmptyString => EmptyString
       | String c s' => String c (replace_first pat rep s')
       end.

(** A JS [Map] with string keys: an association list in insertion order;
    [set] on a present key keeps its position. *)
Fixpoint map_get {V} (k : string) (m : list (string * V)) : option V :=
  match m with
  | [] => None
  | (k', v) :: r => if String.eqb k k' then Some v else map_get k r
  end.

Fixpoint map_set {V} (k : string) (v : V) (m : list (string * V)) : list (string * V) :=
  match m with
  | [] => [(k, v)]
  | (k', v') :: r => if String.eqb k k' then (k, v) :: r else (k', v') :: map_set k v r
  end.

Fixpoint map_delete {V} (k : string) (m : list (string * V)) : list (string * V) :=
  match m with
  | [] => []
  | (k', v') :: r => if String.eqb k k' then r else (k', v') :: map_delete k r
  end.

(** A JS [Set] of strings in insertion order. *)
Definition set_mem (x : string) (s : list string) : bool := existsb (String.eqb x) s.

Definition set_add (x : string) (s : list string) : list string :=
  if set_mem x s then s else s ++ [x].

Definition set_delete (x : string) (s : list string) : list string :=
  filter (fun y => negb (String.eqb x y)) s.

(** ** socket.io in-memory adapter

    [rooms] is [io.sockets.adapter.rooms]: room name to the set of member
    socket ids.  The adapter creates a room on the first join and deletes it
    as soon as its last member leaves ([_del]), so no room is ever empty. *)

Definition adapter_rooms := list (string * list string).

Definition adapter_add (room sid : string) (rs : adapter_rooms) : adapter_rooms :=
  match map_get room rs with
  | None => rs ++ [(room, [sid])]
  | Some ms => map_set room (set_add sid ms) rs
  end.

Definition adapter_del (room sid : string) (rs : adapter_rooms) : adapter_rooms :=
  match map_get room rs with
  | None => rs
  | Some ms =>
      let ms' := set_delete sid ms in
      match ms' with
      | [] => map_delete room rs
      | _ => map_set room ms' rs
      end
  end.

(** [io.sockets.adapter.rooms.get(roomName)?.size || 0]
    (getRoomClientCount, src/unnamed/part_002). *)
Definition room_count (rs : adapter_rooms) (room : string) : nat :=
  match map_get room rs with
  | Some ms => List.length ms
  | None => 0
  end.

(** [socket.rooms]: the rooms [sid] is a member of.  Only used to leave
    rooms, where the iteration order does not matter. *)
Definition socket_rooms (rs : adapter_rooms) (sid : string) : list string :=
  map fst (filter (fun rm => set_mem sid (snd rm)) rs).

(** ** Server state *)

(** An entry of [activeConnections] (ConnectionManager.addConnection). *)
Record conn : Type := mkConn {
  c_id : string;
  c_connectedAt : string;
  c_ipAddress : string
}.

Record state : Type := mkState {
  rooms : adapter_rooms;                   (* io.sockets.adapter.rooms *)
  conns : list (string * conn);            (* ConnectionManager.activeConnections *)
  perma : list (string * json)             (* ConnectionManager.groupPermalinks *)
}.

Definition set_rooms (rs : adapter_rooms) (st : state) : state :=
  mkState rs (conns st) (perma st).
Definition set_conns (cs : list (string * conn)) (st : state) : state :=
  mkState (rooms st) cs (perma st).
Definition set_perma (p : list (string * json)) (st : state) : state :=
  mkState (rooms st) (conns st) p.

Definition empty_state : state := mkState [] [] [].

(** ** Observable actions *)

(** Who a socket.io emission goes to. *)
Inductive target : Type :=
| ToSocket (sid : string)          (* socket.emit *)
| ToRoom (room : string)           (* io.to(room).emit *)
| ToAll                            (* io.emit *)
| ToOthers (sid : string).         (* socket.broadcast.emit *)

(** Emissions, and the calls into BroadcastService made by the bus
    listener (recorded when the call is made). *)
Inductive action : Type :=
| Send (t : target) (name : json) (args : list json)
| BroadcastToClients (channel : string) (event data : json) (groupId : string)
| BroadcastToPrescriptionRoom (channel : string) (event : string) (data : json).

Definition is_send (a : action) : bool :=
  match a with Send _ _ _ => true | _ => false end.

(** The sockets an emission reaches. *)
Definition recipients (st : state) (t : target) : list string :=
  match t with
  | ToSocket sid => [sid]
  | ToRoom r => match map_get r (rooms st) with Some ms => ms | None => [] end
  | ToAll => map fst (conns st)
  | ToOthers sid => filter (fun s => negb (String.eqb s sid)) (map fst (conns st))
  end.

(** ** The handler monad: state, emitted actions, JS exceptions *)

Inductive result (A : Type) : Type :=
| Ok (a : A)
| Err (e : js_error).
Arguments Ok {A} a.
Arguments Err {A} e.

Definition MS (S A : Type) : Type := S -> S * list action * result A.
Definition M (A : Type) : Type := MS state A.

Definition ret {S A} (a : A) : MS S A := fun st => (st, [], Ok a).

Definition bind {S A B} (m : MS S A) (k : A -> MS S B) : MS S B :=
  fun st =>
    match m st with
    | (st1, o1, Ok a) => let '(st2, o2, r) := k a st1 in (st2, o1 ++ o2, r)
    | (st1, o1, Err e) => (st1, o1, Err e)
    end.

Notation "x <- m ;; k" := (bind m (fun x => k)) (at level 61, m at next level, right associativity).
Notation "m ;;; k" := (bind m (fun _ : unit => k)) (at level 61, right associativity).

Definition throw {S A} (e : js_error) : MS S A := fun st => (st, [], Err e).
Definition act {S} (a : action) : MS S unit := fun st => (st, [a], Ok tt).
Definition gets {S A} (f : S -> A) : MS S A := fun st => (st, [], Ok (f st)).
Definition modify {S} (f : S -> S) : MS S unit := fun st => (f st, [], Ok tt).

(** [try { m } catch (e) { h(e) }]: state changes and output of [m] stand. *)
Definition try_catch {S} (m : MS S unit) (h : js_error -> MS S unit) : MS S unit :=
  fun st =>
    match m st with
    | (st1, o1, Err e) => let '(st2, o2, r) := h e st1 in (st2, o1 ++ o2, r)
    | x => x
    end.

(** A template literal or [String(x)] on a value: may throw a TypeError. *)
Definition to_s {S} (v : option json) : MS S string :=
  match tostr_u v with Some s => ret s | None => throw TypeError end.

(** socket.io refuses to emit its reserved event names (the [emit] of both
    Socket and BroadcastOperator throw). *)
Definition reserved_event (v : json) : bool :=
  match v with
  | JStr s => existsb (String.eqb s)
      ["connect"; "connect_error"; "disconnect"; "disconnecting"; "newListener"; "removeListener"]
  | _ => false
  end.

Definition sio_emit {S} (t : target) (name : json) (args : list json) : MS S unit :=
  if reserved_event name then throw ReservedEventName else act (Send t name args).

Definition getRoomClientCount (room : string) : M nat :=
  gets (fun st => room_count (rooms st) room).

Definition sock_join (sid room : string) : M unit :=
  modify (fun st => set_rooms (adapter_add room sid (rooms st)) st).
Definition sock_leave (sid room : string) : M unit :=
  modify (fun st => set_rooms (adapter_del room sid (rooms st)) st).

Fixpoint m_iter {S A} (f : A -> MS S unit) (l : list A) : MS S unit :=
  match l with
  | [] => ret tt
  | x :: r => f x ;;; m_iter f r
  end.

(** ** Bus listener (RedisService, src/unnamed/part_003) *)

(** [channel.match(/antrian\.group\.(\d+)/)], capture group 1: the leftmost
    position where the literal is followed by a digit, then the greedy digit
    run.  Channels are scanned byte by byte; the pattern is ASCII, so this
    agrees with the UTF-16 scan of the decoded string. *)
Definition group_lit : lchars := list_ascii_of_string "antrian.group.".

Fixpoint lprefix (p s : lchars) : bool :=
  match p, s with
  | [], _ => true
  | c :: p', d :: s' => Ascii.eqb c d && lprefix p' s'
  | _ :: _, [] => false
  end.

Definition match_here (s : lchars) : option lchars :=
  if lprefix group_lit s then
    match fst (take_digits (skipn (List.length group_lit) s)) with
    | [] => None
    | d => Some d
    end
  else None.

Fixpoint scan_group (s : lchars) : option lchars :=
  match s with
  | [] => None
  | _ :: r =>
      match match_here s with
      | Some d => Some d
      | None => scan_group r
      end
  end.

Definition extractGroupIdFromChannel (channel : string) : option string :=
  option_map string_of_list_ascii (scan_group (list_ascii_of_string channel)).

(** BroadcastService.broadcastToClients (src/src/services/broadcast.js). *)
Definition broadcastToClients (channel : string) (event data : json) (groupId : string) : M unit :=
  act (BroadcastToClients channel event data groupId) ;;;
  let roomName := ("group_" ++ groupId)%string in
  clientCount <- getRoomClientCount roomName ;;
  if Nat.eqb clientCount 0 then ret tt     (* "No clients in room" *)
  else
    _ <- to_s (Some event) ;;               (* `Emitting "${event}" ...` *)
    sio_emit (ToRoom roomName) event [data] ;;;
    _ <- to_s (Some event) ;;               (* `Broadcasted ${event} ...` *)
    ret tt.

(** BroadcastService.broadcastToPrescriptionRoom. *)
Definition broadcastToPrescriptionRoom (channel event : string) (data : json) : M unit :=
  act (BroadcastToPrescriptionRoom channel event data) ;;;
  clientCount <- getRoomClientCount "prescription" ;;
  if Nat.eqb clientCount 0 then ret tt
  else sio_emit (ToRoom "prescription") (JStr (channel ++ ":" ++ event)) [data].

(** RedisService.handleGeneralMessage: [event.startsWith] throws a
    TypeError unless the event is a string. *)
Definition handleGeneralMessage (channel : string) (event data : json) : M unit :=
  match event with
  | JStr ev =>
      if starts_with "prescription." ev then broadcastToPrescriptionRoom channel ev data
      else if negb (starts_with "antrian." channel) then
        sio_emit ToAll (JStr (channel ++ ":" ++ ev)) [data]
      else ret tt
  | _ => throw TypeError
  end.

(** The first lines of the [try] block of RedisService.processMessage: parse,
    then [if (!data.event || !data.data) return;].  [None] is that early
    return; a throw (SyntaxError, or TypeError on a [null] payload) goes to
    the [catch]. *)
Definition decode_envelope {S} (message : string) : MS S (option (json * json)) :=
  match json_parse message with
  | None => throw SyntaxError
  | Some JNull => throw TypeError                     (* null.event *)
  | Some d =>
      let ev := get_prop d "event" in
      if negb (truthy ev) then ret None               (* Invalid message format *)
      else
        let dt := get_prop d "data" in
        if negb (truthy dt) then ret None
        else
          match ev, dt with
          | Some e, Some x => ret (Some (e, x))
          | _, _ => ret None
          end
  end.

(** The body of the [try] block of RedisService.processMessage. *)
Definition processMessage_body (message channel : string) (isAntrian : bool) : M unit :=
  env <- decode_envelope message ;;
  match env with
  | None => ret tt
  | Some (e, x) =>
      if isAntrian then
        match extractGroupIdFromChannel channel with
        | None => ret tt                              (* Could not extract group ID *)
        | Some g =>
            if negb (truthy (Some (JStr g))) then ret tt
            else broadcastToClients channel e x g
        end
      else handleGeneralMessage channel e x
  end.

(** RedisService.processMessage: every error is caught and logged. *)
Definition processMessage (message channel : string) (isAntrian : bool) : M unit :=
  try_catch (processMessage_body message channel isAntrian) (fun _ => ret tt).

(** Redis glob [antrian.*]: any channel starting with [antrian.]. *)
Definition matches_antrian_pattern (channel : string) : bool :=
  starts_with "antrian." channel.

(** One published message as seen by the two pattern subscriptions of
    RedisService.setupListeners: [antrian.*] (isAntrian = true) when the
    channel matches it, and [*] (isAntrian = false) always.  The broker
    delivers the two copies one after the other. *)
Definition on_bus_message (message channel : string) : M unit :=
  (if matches_antrian_pattern channel then processMessage message channel true else ret tt) ;;;
  processMessage message channel false.

Definition run {S A} (m : MS S A) (st : S) : S * list action * result A := m st.
Definition out_of {S A} (r : S * list action * result A) : list action := snd (fst r).
Definition st_of {S A} (r : S * list action * result A) : S := fst (fst r).
Definition res_of {S A} (r : S * list action * result A) : result A := snd r.

(** ** ConnectionManager (src/src/services/connectionManager.js) *)

(** [new Date().toISOString()] is the [now] argument of each handler. *)
Definition addConnection (socketId ipAddress now : string) : M unit :=
  modify (fun st => set_conns (map_set socketId (mkConn socketId now ipAddress) (conns st)) st).

Definition removeConnection (socketId : string) : M unit :=
  modify (fun st => set_conns (map_delete socketId (conns st)) st).

(** [setGroupPermalink(groupId, groupName)]: [String(groupId)] is the key;
    the log line then renders [groupName] in a template literal. *)
Definition setGroupPermalink (groupId groupName : option json) : M unit :=
  groupIdStr <- to_s groupId ;;
  (match groupName with
   | Some n => modify (fun st => set_perma (map_set groupIdStr n (perma st)) st)
   | None => ret tt   (* only called with a truthy groupName *)
   end) ;;;
  _ <- to_s groupName ;;
  ret tt.

Definition removeGroupPermalink (groupId : option json) : M unit :=
  groupIdStr <- to_s groupId ;;
  modify (fun st => set_perma (map_delete groupIdStr (perma st)) st).

(** [getGroupPermalink(groupId)]: [this.groupPermalinks.get(String(groupId))];
    [None] is undefined. *)
Definition getGroupPermalink (groupId : option json) : M (option json) :=
  groupIdStr <- to_s groupId ;;
  gets (fun st => map_get groupIdStr (perma st)).

Definition getConnection (socketId : string) : M (option conn) :=
  gets (fun st => map_get socketId (conns st)).

Definition getAllConnections : M (list conn) :=
  gets (fun st => map snd (conns st)).

Definition group_room_names (st : state) : list string :=
  filter (starts_with "group_") (map fst (rooms st)).

(** cleanupEmptyGroups: drops the permalink of every materialised group room
    with no member. *)
Definition cleanupEmptyGroups : M unit :=
  roomNames <- gets group_room_names ;;
  m_iter (fun roomName =>
            let groupId := replace_first "group_" "" roomName in
            clientCount <- getRoomClientCount roomName ;;
            if Nat.eqb clientCount 0
            then modify (fun st => set_perma (map_delete groupId (perma st)) st)
            else ret tt) roomNames.

(** [parseInt(s)] (radix undefined): leading white space, a sign, a [0x]
    prefix for radix 16, then the longest run of digits; no digit is NaN
    ([None]).  JS keeps the value as a double; here it is exact. *)
Definition is_js_space (c : ascii) : bool :=
  match nat_of_ascii c with 9 | 10 | 11 | 12 | 13 | 32 | 160 => true | _ => false end.

Fixpoint skip_js_space (s : lchars) : lchars :=
  match s with
  | c :: r => if is_js_space c then skip_js_space r else s
  | [] => []
  end.

Fixpoint take_radix_digits (radix : Z) (s : lchars) : list Z * lchars :=
  match s with
  | c :: r =>
      match hex_val c with
      | Some v => if (v <? radix)%Z
                  then let '(ds, r') := take_radix_digits radix r in (v :: ds, r')
                  else ([], s)
      | None => ([], s)
      end
  | [] => ([], [])
  end.

Definition parseInt (str : string) : option Z :=
  let s := skip_js_space (list_ascii_of_string str) in
  let '(neg, s1) := match s with
                    | "-"%char :: r => (true, r)
                    | "+"%char :: r => (false, r)
                    | _ => (false, s)
                    end in
  let '(radix, s2) := match s1 with
                      | "0"%char :: x :: r =>
                          if Ascii.eqb x "x"%char || Ascii.eqb x "X"%char
                          then (16%Z, r) else (10%Z, s1)
                      | _ => (10%Z, s1)
                      end in
  match fst (take_radix_digits radix s2) with
  | [] => None
  | ds => let v := fold_left (fun acc d => acc * radix + d)%Z ds 0%Z in
          Some (if neg then - v else v)%Z
  end.

Record client_detail : Type := mkClientDetail {
  cd_socketId : string;
  cd_connectedAt : option string;
  cd_ipAddress : option string
}.

Record display : Type := mkDisplay {
  groupNumber : option Z;       (* parseInt(groupId); None is NaN *)
  permalink : json;
  roomName : string;
  clientCount : nat;
  clients : list client_detail;
  isActive : bool;
  lastUpdated : string
}.

Definition client_details (st : state) (members : list string) : list client_detail :=
  map (fun socketId =>
         let c := map_get socketId (conns st) in
         mkClientDetail socketId (option_map c_connectedAt c) (option_map c_ipAddress c))
      members.

(** The [map] callback of getActiveDisplays for one room. *)
Definition display_of (st : state) (now roomName : string) : display :=
  let groupId := replace_first "group_" "" roomName in
  let cnt := room_count (rooms st) roomName in
  let members := match map_get roomName (rooms st) with Some ms => ms | None => [] end in
  let stored := map_get groupId (perma st) in
  let actualPermalink :=
    if truthy stored then match stored with Some p => p | None => JNull end
    else JStr ("/display/group/" ++ groupId) in
  mkDisplay (parseInt groupId) actualPermalink roomName cnt (client_details st members)
            (Nat.ltb 0 cnt) now.

(** [(a, b) => a.groupNumber - b.groupNumber]; a NaN result compares as 0
    (SortCompare). *)
Definition cmp_positive (a b : display) : bool :=
  match groupNumber a, groupNumber b with
  | Some x, Some y => (0 <? x - y)%Z
  | _, _ => false
  end.

(** Array.prototype.sort is stable: each element goes after every earlier one
    that does not compare greater.  With a consistent comparator this is the
    only stable result; with NaN keys the order is implementation-defined and
    this is one admissible order. *)
Fixpoint insert_display (x : display) (l : list display) : list display :=
  match l with
  | [] => [x]
  | y :: r => if cmp_positive y x then x :: y :: r else y :: insert_display x r
  end.

Definition sort_displays (l : list display) : list display :=
  fold_left (fun acc x => insert_display x acc) l [].

Definition getActiveDisplays (st : state) (now : string) : list display :=
  sort_displays (filter isActive (map (display_of st now) (group_room_names st))).

(** What ECMAScript guarantees of [activeDisplays.sort(cmp)]: a permutation;
    when the comparator is consistent, which [a.groupNumber - b.groupNumber]
    is exactly when no key is NaN, the stable sorted permutation (the
    result of [sort_displays]).  With a NaN key the order is
    implementation-defined: any permutation may come out.  The outputs of
    getActiveDisplays are the lists [ds] below; [getActiveDisplays] above is
    one of them. *)
Definition numeric_keys (l : list display) : bool :=
  forallb (fun d => match groupNumber d with Some _ => true | None => false end) l.

Definition sort_admissible (l l' : list display) : Prop :=
  Permutation l l' /\ (numeric_keys l = true -> l' = sort_displays l).

Definition active_displays (st : state) (now : string) (ds : list display) : Prop :=
  sort_admissible (filter isActive (map (display_of st now) (group_room_names st))) ds.

(** ** API routes (src/unnamed/part_001: GET /displays/active) *)

(** The JSON body the route sends with [res.json]. *)
Record active_response : Type := mkActiveResponse {
  success : bool;
  totalActiveDisplays : nat;
  displays : list display;
  timestamp : string
}.

(** The body built from the list [ds] that getActiveDisplays returned.  The
    [catch] branch (status 500) is unreachable: getActiveDisplays does not
    throw. *)
Definition displays_active_body (ds : list display) (ts : string) : active_response :=
  mkActiveResponse true (List.length ds) ds ts.

(** The bodies the route may answer with; [now] is the timestamp inside
    getActiveDisplays and [ts] the later [createTimestamp()] of the route. *)
Definition displays_active_response (st : state) (now ts : string) (resp : active_response) : Prop :=
  exists ds, active_displays st now ds /\ resp = displays_active_body ds ts.

(** ** SocketHandlers (src/src/handlers/socketHandlers.js) *)

(** JSON serialisation drops undefined properties. *)
Definition jobj (fields : list (string * option json)) : json :=
  JObj (fold_right (fun kv acc => match snd kv with
                                  | Some v => (fst kv, v) :: acc
                                  | None => acc end) [] fields).

Definition emit_error (sid msg : string) : M unit :=
  sio_emit (ToSocket sid) (JStr "error") [JObj [("message", JStr msg)]].

(** [const { ... } = data] throws on undefined and null. *)
Definition destructure {S} (data : option json) : MS S json :=
  match data with
  | None | Some JNull => throw TypeError
  | Some d => ret d
  end.

Definition leave_previous_groups (sid : string) : M unit :=
  rs <- gets (fun st => socket_rooms (rooms st) sid) ;;
  m_iter (fun room =>
            if negb (String.eqb room sid) && starts_with "group_" room
            then sock_leave sid room else ret tt) rs.

Definition handleJoinGroup (sid : string) (data : option json) (now : string) : M unit :=
  try_catch (
    d <- destructure data ;;
    let groupId := get_prop d "groupId" in
    let groupName := get_prop d "groupName" in
    if negb (truthy groupId) then emit_error sid "Group ID is required"
    else
      gs <- to_s groupId ;;
      let roomName := ("group_" ++ gs)%string in
      (if truthy groupName then setGroupPermalink groupId groupName
       else _ <- to_s groupId ;; ret tt) ;;;           (* No groupName provided *)
      leave_previous_groups sid ;;;
      sock_join sid roomName ;;;
      sio_emit (ToSocket sid) (JStr "joined-group")
        [jobj [("groupId", groupId); ("groupName", groupName);
               ("roomName", Some (JStr roomName)); ("timestamp", Some (JStr now))]] ;;;
      _ <- to_s groupId ;; _ <- to_s groupName ;;      (* joined group ${groupId} (${groupName}) *)
      ret tt)
    (fun _ => emit_error sid "Failed to join group").

Definition handleLeaveGroup (sid : string) (data : option json) (now : string) : M unit :=
  try_catch (
    d <- destructure data ;;
    let groupId := get_prop d "groupId" in
    gs <- to_s groupId ;;
    let roomName := ("group_" ++ gs)%string in
    sock_leave sid roomName ;;;
    remainingClients <- getRoomClientCount roomName ;;
    (if Nat.eqb remainingClients 0 then removeGroupPermalink groupId else ret tt) ;;;
    sio_emit (ToSocket sid) (JStr "left-group")
      [jobj [("groupId", groupId); ("roomName", Some (JStr roomName));
             ("timestamp", Some (JStr now))]] ;;;
    _ <- to_s groupId ;;
    ret tt)
    (fun _ => emit_error sid "Failed to leave group").

Definition handleJoinPrescription (sid now : string) : M unit :=
  try_catch (
    sock_join sid "prescription" ;;;
    sio_emit (ToSocket sid) (JStr "prescription-joined")
      [JObj [("message", JStr "Successfully joined prescription room"); ("socketId", JStr sid);
             ("roomName", JStr "prescription"); ("timestamp", JStr now)]])
    (fun _ => emit_error sid "Failed to join prescription room").

Definition handleLeavePrescription (sid now : string) : M unit :=
  try_catch (
    sock_leave sid "prescription" ;;;
    sio_emit (ToSocket sid) (JStr "prescription-left")
      [JObj [("message", JStr "Successfully left prescription room"); ("socketId", JStr sid);
             ("roomName", JStr "prescription"); ("timestamp", JStr now)]])
    (fun _ => emit_error sid "Failed to leave prescription room").

(** A new socket: socket.io puts it in the room named by its id, then
    handleConnection registers it. *)
Definition on_connect (sid address now : string) : M unit :=
  sock_join sid sid ;;; addConnection sid address now.

(** A closing socket: socket.io's [_onclose] leaves every room first
    ([leaveAll]), then emits [disconnect], whose handler runs the cleanup sweep
    and removes the connection. *)
Definition on_disconnect (sid : string) : M unit :=
  rs <- gets (fun st => socket_rooms (rooms st) sid) ;;
  m_iter (sock_leave sid) rs ;;;
  cleanupEmptyGroups ;;;
  removeConnection sid.

Definition handle_ping (sid now : string) : M unit :=
  sio_emit (ToSocket sid) (JStr "pong") [JObj [("timestamp", JStr now)]].

(** Client operations on the registry. *)
Inductive op : Type :=
| OpConnect (sid address : string)
| OpJoinGroup (sid : string) (data : option json)
| OpLeaveGroup (sid : string) (data : option json)
| OpJoinPrescription (sid : string)
| OpLeavePrescription (sid : string)
| OpDisconnect (sid : string).

Definition step (now : string) (o : op) : M unit :=
  match o with
  | OpConnect sid a => on_connect sid a now
  | OpJoinGroup sid d => handleJoinGroup sid d now
  | OpLeaveGroup sid d => handleLeaveGroup sid d now
  | OpJoinPrescription sid => handleJoinPrescription sid now
  | OpLeavePrescription sid => handleLeavePrescription sid now
  | OpDisconnect sid => on_disconnect sid
  end.

(** Each operation is a separate event callback: an error in one does not
    stop the next. *)
Fixpoint exec_ops (now : string) (ops : list op) (st : state) : state :=
  match ops with
  | [] => st
  | o :: r => exec_ops now r (fst (fst (step now o st)))
  end.

Definition gid (n : Z) : json := JObj [("groupId", JNum n 0)].
Definition gid_named (n : Z) (name : string) : json :=
  JObj [("groupId", JNum n 0); ("groupName", JStr name)].

(** ** The legacy entry point (src/server.js) *)

Module Legacy.

(** An entry of server.js's [activeConnections]. *)
Record lconn : Type := mkLConn {
  l_id : string;
  l_connectedAt : string;
  l_lastActivity : string;
  l_ipAddress : string
}.

Record lstate : Type := mkLState {
  lrooms : adapter_rooms;
  lconns : list (string * lconn)
}.

Definition LM (A : Type) : Type := MS lstate A.

Definition ljoin (sid room : string) : LM unit :=
  modify (fun st => mkLState (adapter_add room sid (lrooms st)) (lconns st)).
Definition lleave (sid room : string) : LM unit :=
  modify (fun st => mkLState (adapter_del room sid (lrooms st)) (lconns st)).

Definition lemit_error (sid msg : string) : LM unit :=
  sio_emit (ToSocket sid) (JStr "error") [JObj [("message", JStr msg)]].


Definition join_group (sid : string) (data : option json) (now : string) : LM unit :=
  try_catch (
    d <- destructure data ;;
    let groupId := get_prop d "groupId" in
    let groupName := get_prop d "groupName" in
    if negb (truthy groupId) then lemit_error sid "Group ID is required"
    else
      gs <- to_s groupId ;;
      let roomName := ("group_" ++ gs)%string in
      rs <- gets (fun st => socket_rooms (lrooms st) sid) ;;
      m_iter (fun room =>
                if negb (String.eqb room sid) && starts_with "group_" room
                then lleave sid room else ret tt) rs ;;;
      ljoin sid roomName ;;;
      sio_emit (ToSocket sid) (JStr "joined-group")
        [jobj [("groupId", groupId); ("groupName", groupName);
               ("roomName", Some (JStr roomName)); ("timestamp", Some (JStr now))]] ;;;
      _ <- to_s groupId ;; _ <- to_s groupName ;;
      ret tt)
    (fun _ => lemit_error sid "Failed to join group").

Definition leave_group (sid : string) (data : option json) (now : string) : LM unit :=
  try_catch (
    d <- destructure data ;;
    let groupId := get_prop d "groupId" in
    gs <- to_s groupId ;;
    let roomName := ("group_" ++ gs)%string in
    lleave sid roomName ;;;
    sio_emit (ToSocket sid) (JStr "left-group")
      [jobj [("groupId", groupId); ("roomName", Some (JStr roomName));
             ("timestamp", Some (JStr now))]] ;;;
    _ <- to_s groupId ;;
    ret tt)
    (fun _ => lemit_error sid "Failed to leave group").

Definition join_prescription (sid now : string) : LM unit :=
  try_catch (
    ljoin sid "prescription" ;;;
    sio_emit (ToSocket sid) (JStr "prescription-joined")
      [JObj [("message", JStr "Successfully joined prescription room"); ("socketId", JStr sid);
             ("roomName", JStr "prescription"); ("timestamp", JStr now)]])
    (fun _ => lemit_error sid "Failed to join prescription room").

Definition leave_prescription (sid now : string) : LM unit :=
  try_catch (
    lleave sid "prescription" ;;;
    sio_emit (ToSocket sid) (JStr "prescription-left")
      [JObj [("message", JStr "Successfully left prescription room"); ("socketId", JStr sid);
             ("roomName", JStr "prescription"); ("timestamp", JStr now)]])
    (fun _ => lemit_error sid "Failed to leave prescription room").

(** The listeners registered with [socket.on]; an event with no listener
    has no specific handling.  A listener receives the event's arguments;
    [data] is the first. *)
Definition specific_handler (sid eventName : string) (args : list json) (now : string) : LM unit :=
  let data := hd_error args in
  if String.eqb eventName "join-group" then join_group sid data now
  else if String.eqb eventName "leave-group" then leave_group sid data now
  else if String.eqb eventName "join-prescription" then join_prescription sid now
  else if String.eqb eventName "leave-prescription" then leave_prescription sid now
  else if String.eqb eventName "ping" then
    sio_emit (ToSocket sid) (JStr "pong") [JObj [("timestamp", JStr now)]]
  else ret tt.



(** ** The Redis listeners of server.js (setupRedisListeners) *)

(** server.js's own broadcastToClients: the same steps as BroadcastService's,
    without the service layer. *)
Definition broadcastToClients (channel : string) (event data : json) (groupId : string) : LM unit :=
  let roomName := ("group_" ++ groupId)%string in
  clientCount <- gets (fun st => room_count (lrooms st) roomName) ;;
  if Nat.eqb clientCount 0 then ret tt     (* "No clients in room" *)
  else
    _ <- to_s (Some event) ;;               (* `Emitting "${event}" ...` *)
    sio_emit (ToRoom roomName) event [data] ;;;
    _ <- to_s (Some event) ;;               (* `Broadcasted ${event} ...` *)
    ret tt.

Definition broadcastToPrescriptionRoom (channel event : string) (data : json) : LM unit :=
  clientCount <- gets (fun st => room_count (lrooms st) "prescription") ;;
  if Nat.eqb clientCount 0 then ret tt
  else sio_emit (ToRoom "prescription") (JStr (channel ++ ":" ++ event)) [data].

(** The [antrian.*] listener. *)
Definition on_antrian_message (message channel : string) : LM unit :=
  try_catch (
    env <- decode_envelope message ;;
    match env with
    | None => ret tt
    | Some (e, x) =>
        match extractGroupIdFromChannel channel with
        | None => ret tt                              (* Could not extract group ID *)
        | Some g =>
            if negb (truthy (Some (JStr g))) then ret tt
            else broadcastToClients channel e x g
        end
    end)
    (fun _ => ret tt).

(** The [*] listener: [event.startsWith] throws a TypeError unless the
    event is a string. *)
Definition on_all_message (message channel : string) : LM unit :=
  try_catch (
    env <- decode_envelope message ;;
    match env with
    | None => ret tt
    | Some (event, x) =>
        match event with
        | JStr ev =>
            if starts_with "prescription." ev then broadcastToPrescriptionRoom channel ev x
            else if negb (starts_with "antrian." channel) then
              sio_emit ToAll (JStr (channel ++ ":" ++ ev)) [x]
            else ret tt
        | _ => throw TypeError
        end
    end)
    (fun _ => ret tt).

(** One published message as seen by the two pattern subscriptions, in the
    order they were made. *)
Definition on_bus_message (message channel : string) : LM unit :=
  (if matches_antrian_pattern channel then on_antrian_message message channel else ret tt) ;;;
  on_all_message message channel.

(** ** POST /broadcast *)

(** [io.to(room)]: an array adds each of its elements as a room. *)
Definition room_list (room : json) : list json :=
  match room with
  | JArr l => l
  | r => [r]
  end.

Inductive btarget : Type :=
| BAll                        (* io.emit *)
| BRooms (rs : list json).    (* io.to(room).emit *)

(** What the route does, in order: emissions, then the HTTP response. *)
Inductive bout : Type :=
| BEmit (t : btarget) (event data : json)
| Respond (status : nat) (body : json).

Definition bad_request : bout :=
  Respond 400 (JObj [("error", JStr "Event and data are required")]).
Definition broadcast_failed : bout :=
  Respond 500 (JObj [("error", JStr "Failed to broadcast message")]).

Definition is_prescription_room (room : option json) : bool :=
  match room with
  | Some (JStr r) => String.eqb r "prescription"
  | _ => false
  end.

(** [room || 'all clients'] *)
Definition or_all_clients (room : option json) : json :=
  match room with
  | Some r => if truthy room then r else JStr "all clients"
  | None => JStr "all clients"
  end.

(** The handler, for the parsed request body [body]; [now] is
    [new Date().toISOString()].  Destructuring [null] throws; the emit
    throws on a reserved event name; the log lines and the [message]
    template throw when a value cannot be converted to a string; every
    throw ends in the 500 response of the [catch]. *)
Definition post_broadcast (body : json) (now : string) : list bout :=
  match body with
  | JNull => [broadcast_failed]
  | _ =>
      let event := get_prop body "event" in
      let data := get_prop body "data" in
      let room := get_prop body "room" in
      if negb (truthy event) || negb (truthy data) then [bad_request]
      else
        match event, data with
        | Some ev, Some dt =>
            if reserved_event ev then [broadcast_failed]
            else
              let emission :=
                match room with
                | Some r => if truthy room then BEmit (BRooms (room_list r)) ev dt
                            else BEmit BAll ev dt
                | None => BEmit BAll ev dt
                end in
              let log_ok :=
                if truthy room && negb (is_prescription_room room)
                then match tostr_u room with Some _ => true | None => false end
                else true in
              emission ::
              (if log_ok then
                 match tostr_u event with
                 | Some evs =>
                     [Respond 200 (JObj [("success", JBool true);
                                         ("message", JStr ("Event " ++ evs ++ " broadcasted successfully"));
                                         ("target", or_all_clients room);
                                         ("timestamp", JStr now)])]
                 | None => [broadcast_failed]
                 end
               else [broadcast_failed])
        | _, _ => [bad_request]
        end
  end.

End Legacy.

(** ** The backup server (src/backup_prescription_socket.js) *)

Module Backup.

(** The [pmessage] listener: no validation and no [try]; a throw leaves the
    listener.  [io.emit] sends an undefined [data] as [null]. *)
Definition on_pmessage {S} (channel message : string) : MS S unit :=
  match json_parse message with
  | None => throw SyntaxError
  | Some JNull => throw TypeError                     (* null.event *)
  | Some parsedMessage =>
      let event := get_prop parsedMessage "event" in
      let data := get_prop parsedMessage "data" in
      ev <- to_s event ;;
      sio_emit ToAll (JStr (channel ++ ":" ++ ev))
        [match data with Some x => x | None => JNull end]
  end.

End Backup.

(** ** Reading of the group-channel claims

    An occurrence of the literal [antrian.group.] at offset [pre] that is
    followed by a digit, and the maximal digit run [d] after it. *)
Definition all_digits (d : lchars) : bool := forallb is_digit d.

Definition head_not_digit (r : lchars) : bool :=
  match r with c :: _ => negb (is_digit c) | [] => true end.

Definition occurrence_at (s pre : lchars) : Prop :=
  exists c r, s = pre ++ group_lit ++ c :: r /\ is_digit c = true.

Definition group_occurrence (s pre d rest : lchars) : Prop :=
  s = pre ++ group_lit ++ d ++ rest /\ d <> [] /\ all_digits d = true /\
  head_not_digit rest = true.

(** ** Reading of the registry claims *)

(** [sid] is a member of room [room]. *)
Definition is_member (rs : adapter_rooms) (room sid : string) : bool :=
  match map_get room rs with
  | Some ms => set_mem sid ms
  | None => false
  end.

(** The rooms left by leave_previous_groups, as a function on the adapter. *)
Definition leave_groups (sid : string) (rs : adapter_rooms) : adapter_rooms :=
  fold_left (fun acc room =>
               if negb (String.eqb room sid) && starts_with "group_" room
               then adapter_del room sid acc else acc)
            (socket_rooms rs sid) rs.

(** At most one group room holds [sid]. *)
Definition at_most_one_group (rs : adapter_rooms) (sid : string) : Prop :=
  forall r1 r2, starts_with "group_" r1 = true -> starts_with "group_" r2 = true ->
    is_member rs r1 sid = true -> is_member rs r2 sid = true -> r1 = r2.

(** At most one group room other than the room named by [sid] itself holds
    [sid] (handleJoinGroup leaves every [group_] room but [socket.id]). *)
Definition at_most_one_other_group (rs : adapter_rooms) (sid : string) : Prop :=
  forall r1 r2, starts_with "group_" r1 = true -> starts_with "group_" r2 = true ->
    r1 <> sid -> r2 <> sid ->
    is_member rs r1 sid = true -> is_member rs r2 sid = true -> r1 = r2.

(** Ascending order of group numbers. *)
Definition key_le (a b : display) : bool :=
  match groupNumber a, groupNumber b with
  | Some x, Some y => (x <=? y)%Z
  | _, _ => false
  end.

(** The socket id an operation acts for. *)
Definition op_sid (o : op) : string :=
  match o with
  | OpConnect sid _ | OpJoinGroup sid _ | OpLeaveGroup sid _
  | OpJoinPrescription sid | OpLeavePrescription sid | OpDisconnect sid => sid
  end.

(** ** Predicates of the further properties *)

Definition rooms_nonempty (rs : adapter_rooms) : bool :=
  forallb (fun rm => negb (Nat.eqb (List.length (snd rm)) 0)) rs.

Definition emits_only {S A} (ok : action -> Prop) (m : MS S A) : Prop :=
  forall st a, In a (out_of (m st)) -> ok a.

Definition keeps {S A} (R : S -> S -> Prop) (m : MS S A) : Prop :=
  forall st, R st (st_of (m st)).

Definition same_conns (a b : state) : Prop := conns b = conns a.

Definition prescription_reply (ev msg sid now : string) : action :=
  Send (ToSocket sid) (JStr ev)
    [JObj [("message", JStr msg); ("socketId", JStr sid);
           ("roomName", JStr "prescription"); ("timestamp", JStr now)]].

Definition error_reply (sid msg : string) : action :=
  Send (ToSocket sid) (JStr "error") [JObj [("message", JStr msg)]].

Definition agree_on (st : state) (lst : Legacy.lstate) (m : M unit) (lm : Legacy.LM unit) : Prop :=
  out_of (lm lst) = out_of (m st) /\ Legacy.lrooms (st_of (lm lst)) = rooms (st_of (m st)).

(** * Properties *)

(** ** Evaluations of the embedding *)

Example json_parse_ex1 :
  json_parse (dq "{'event': 'a.b', 'data': [1, -2.50e1, null, true]}") =
  Some (JObj [("event", JStr "a.b");
              ("data", JArr [JNum 1 0; JNum (-250) (-1); JNull; JBool true])]).
Proof. reflexivity. Qed.

Example json_parse_ex2 : json_parse "{1}" = None.
Proof. reflexivity. Qed.

Example tostr_ex : tostr (JNum (-250) (-1)) = Some "-25" /\ tostr (JNum 15 (-1)) = Some "1.5"
  /\ tostr (JArr [JNum 1 0; JNull; JStr "x"]) = Some "1,,x"
  /\ tostr (JObj [("toString", JNum 1 0)]) = None.
Proof. repeat split; reflexivity. Qed.

Example extract_ex :
  extractGroupIdFromChannel "antrian.group.12" = Some "12" /\
  extractGroupIdFromChannel "x.antrian.group.y antrian.group.7.status" = Some "7" /\
  extractGroupIdFromChannel "antrian.group." = None.
Proof. repeat split; reflexivity. Qed.

Example registry_ex :
  let st := exec_ops "t" [OpConnect "a" "ip"; OpConnect "b" "ip";
                                     OpJoinGroup "a" (Some (gid_named 2 "/d/2"));
                                     OpJoinGroup "b" (Some (gid 1));
                                     OpJoinPrescription "a";
                                     OpJoinGroup "a" (Some (gid 1))] empty_state in
  rooms st = [("a", ["a"]); ("b", ["b"]); ("group_1", ["b"; "a"]); ("prescription", ["a"])]
  /\ perma st = [("2", JStr "/d/2")].
Proof. split; reflexivity. Qed.

(** ** Monad and decoding lemmas *)

Lemma bind_pure_eq {S A B} (m : MS S A) (k : A -> MS S B) (st : S) (a : A) :
  m st = (st, [], Ok a) -> bind m k st = k a st.
Proof.
  intro H. unfold bind. rewrite H. destruct (k a st) as [[st2 o2] r]. reflexivity.
Qed.

Lemma try_catch_ignore_ok {S} (m : MS S unit) (st : S) :
  res_of (try_catch m (fun _ => ret tt) st) = Ok tt.
Proof.
  unfold try_catch, res_of, ret. destruct (m st) as [[st1 o1] [[] | e]]; reflexivity.
Qed.

Lemma decode_envelope_ok {S} (message : string) (d e x : json) (st : S) :
  json_parse message = Some d -> get_prop d "event" = Some e -> get_prop d "data" = Some x ->
  truthy (Some e) = true -> truthy (Some x) = true ->
  decode_envelope message st = (st, [], Ok (Some (e, x))).
Proof.
  intros Hp He Hd Te Tx. unfold decode_envelope. rewrite Hp.
  destruct d; try (simpl in He; discriminate).
  cbv beta iota zeta. rewrite He, Te. cbv beta iota. rewrite Hd, Tx. reflexivity.
Qed.

Lemma processMessage_decoded (message channel : string) (b : bool) (st : state) (e x : json) :
  decode_envelope message st = (st, [], Ok (Some (e, x))) ->
  processMessage message channel b st =
  try_catch (fun st' =>
    (if b then
       match extractGroupIdFromChannel channel with
       | None => ret tt
       | Some g => if negb (truthy (Some (JStr g))) then ret tt else broadcastToClients channel e x g
       end
     else handleGeneralMessage channel e x) st') (fun _ => ret tt) st.
Proof.
  intro H. unfold processMessage. unfold try_catch at 1 2.
  unfold processMessage_body. rewrite (bind_pure_eq _ _ _ _ H). reflexivity.
Qed.

(** ** C8: malformed bus payloads *)

(** C8: a raw bus message that is not well-formed JSON, delivered on either
    subscription, is caught inside processMessage: the handler returns
    normally, changes nothing and emits nothing (no BroadcastService call,
    no socket emission). *)
Theorem malformed_message_no_effect (message channel : string) (st : state) :
  json_parse message = None ->
  (forall isAntrian, run (processMessage message channel isAntrian) st = (st, [], Ok tt)) /\
  run (on_bus_message message channel) st = (st, [], Ok tt).
Proof.
  intro H.
  assert (P : forall b, run (processMessage message channel b) st = (st, [], Ok tt)).
  { intro b. unfold run, processMessage, processMessage_body, try_catch, bind, decode_envelope.
    rewrite H. reflexivity. }
  split; [exact P |].
  unfold run in P. unfold run, on_bus_message.
  destruct (matches_antrian_pattern channel).
  - unfold bind at 1. rewrite (P true). unfold bind. simpl. rewrite (P false). reflexivity.
  - unfold bind at 1. unfold ret at 1. simpl. rewrite (P false). reflexivity.
Qed.

Lemma malformed_message_no_effect_witness :
  json_parse "garbage{" = None /\
  ((forall isAntrian, run (processMessage "garbage{" "antrian.group.1" isAntrian) empty_state
                      = (empty_state, [], Ok tt)) /\
   run (on_bus_message "garbage{" "antrian.group.1") empty_state = (empty_state, [], Ok tt)).
Proof.
  split; [reflexivity |]. apply (malformed_message_no_effect "garbage{" "antrian.group.1" empty_state).
  reflexivity.
Defined.

(** ** C6: envelope decoding *)

Lemma decode_envelope_some_inv {S} (message : string) (st : S) (e x : json) :
  decode_envelope message st = (st, [], Ok (Some (e, x))) ->
  exists d, json_parse message = Some d /\ get_prop d "event" = Some e /\
            get_prop d "data" = Some x /\ truthy (Some e) = true /\ truthy (Some x) = true.
Proof.
  unfold decode_envelope. destruct (json_parse message) as [d|]; [| discriminate].
  intro H. exists d. split; [reflexivity |].
  destruct d as [| b | m ex | s0 | l | kvs] eqn:Hd;
    [ discriminate H | rewrite <- Hd in H |- *.. ];
  cbv beta iota zeta in H;
  (destruct (get_prop d "event") as [e'|] eqn:He;
   [ destruct (truthy (Some e')) eqn:Te | ]; cbn [negb truthy] in H;
   [ | discriminate H | discriminate H ];
   destruct (get_prop d "data") as [x'|] eqn:Hx;
   [ destruct (truthy (Some x')) eqn:Tx | ]; cbn [negb truthy] in H;
   [ | discriminate H | discriminate H ];
   unfold ret in H; injection H as <- <-; auto).
Qed.

Lemma decode_envelope_pure {S} (message : string) (st : S) :
  exists r, decode_envelope message st = (st, [], r).
Proof.
  unfold decode_envelope. destruct (json_parse message) as [d|]; [| eexists; reflexivity].
  destruct d as [| b | m ex | s0 | l | kvs] eqn:Hd; [eexists; reflexivity | rewrite <- Hd ..];
  cbv beta iota zeta;
  (destruct (truthy (get_prop d "event")), (truthy (get_prop d "data"));
   cbn [negb]; [ destruct (get_prop d "event"), (get_prop d "data") | .. ];
   eexists; reflexivity).
Qed.

(** C6 (as stated, refuted): the payload [{"event":"x","data":0}] is
    well-formed and both fields are present and non-null, yet the decode
    reports it malformed (the early return), so it is never forwarded; the
    same holds for [false] and the empty string. *)
Lemma decode_envelope_rejects_falsy_data :
  json_parse (dq "{'event':'x','data':0}") = Some (JObj [("event", JStr "x"); ("data", JNum 0 0)]) /\
  decode_envelope (S := state) (dq "{'event':'x','data':0}") empty_state = (empty_state, [], Ok None) /\
  decode_envelope (S := state) (dq "{'event':'x','data':false}") empty_state = (empty_state, [], Ok None) /\
  decode_envelope (S := state) (dq "{'event':'x','data':''}") empty_state = (empty_state, [], Ok None) /\
  run (on_bus_message (dq "{'event':'x','data':0}") "orders.1")
      (mkState [] [("a", mkConn "a" "t" "ip")] []) =
  (mkState [] [("a", mkConn "a" "t" "ip")] [], [], Ok tt).
Proof. repeat split; reflexivity. Qed.

(** C6 (amended): the decode never changes anything and never lets an
    exception escape processMessage; it succeeds exactly when the payload is
    well-formed JSON whose [event] and [data] fields are both truthy (so it
    reports Malformed for a non-JSON payload, a [null] payload, and an
    absent, null, false, 0 or empty-string field), and then returns the two
    fields untouched. *)
Theorem decode_envelope_spec {S} (message : string) (st : S) :
  (exists r, decode_envelope message st = (st, [], r)) /\
  (forall e x,
     decode_envelope message st = (st, [], Ok (Some (e, x))) <->
     exists d, json_parse message = Some d /\ get_prop d "event" = Some e /\
               get_prop d "data" = Some x /\ truthy (Some e) = true /\ truthy (Some x) = true) /\
  (forall channel isAntrian (st' : state),
     res_of (run (processMessage message channel isAntrian) st') = Ok tt).
Proof.
  split; [apply decode_envelope_pure |]. split.
  - intros e x. split; [apply decode_envelope_some_inv |].
    intros (d & Hp & He & Hx & Te & Tx). eapply decode_envelope_ok; eauto.
  - intros channel b st'. unfold run, processMessage. apply try_catch_ignore_ok.
Qed.

(** ** C7: category-room prefixing *)

Ltac mred := cbv beta iota zeta delta [bind ret act gets modify throw try_catch sio_emit
  getRoomClientCount run broadcastToClients broadcastToPrescriptionRoom handleGeneralMessage to_s].

Lemma lprefix_app (p s : lchars) : lprefix p s = true -> s = p ++ skipn (List.length p) s.
Proof.
  revert s; induction p as [| c p IH]; intros s H; [reflexivity |].
  destruct s as [| d s]; [discriminate |]. simpl in H. apply andb_true_iff in H as [Hc Hp].
  apply Ascii.eqb_eq in Hc. subst d. simpl. f_equal. apply IH, Hp.
Qed.

Lemma match_here_nonempty (s d : lchars) : match_here s = Some d -> d <> [].
Proof.
  unfold match_here. destruct (lprefix group_lit s); [| discriminate].
  destruct (fst (take_digits _)) as [| c r]; [discriminate |]. intros H; injection H as <-; discriminate.
Qed.

Lemma scan_group_nonempty (s d : lchars) : scan_group s = Some d -> d <> [].
Proof.
  induction s as [| c s IH]; [discriminate |]. simpl.
  destruct (match_here (c :: s)) as [d'|] eqn:E.
  - intros H; injection H as <-. eapply match_here_nonempty; eauto.
  - exact IH.
Qed.

Lemma extract_truthy (channel g : string) :
  extractGroupIdFromChannel channel = Some g -> truthy (Some (JStr g)) = true.
Proof.
  unfold extractGroupIdFromChannel. destruct (scan_group _) as [d|] eqn:E; [| discriminate].
  intros H; injection H as <-. apply scan_group_nonempty in E.
  destruct d; [congruence | reflexivity].
Qed.

(** The [antrian.*] copy of a decoded envelope on a group channel. *)
Lemma processMessage_group (message channel g : string) (e x : json) (st : state) :
  decode_envelope message st = (st, [], Ok (Some (e, x))) ->
  extractGroupIdFromChannel channel = Some g ->
  processMessage message channel true st =
  try_catch (broadcastToClients channel e x g) (fun _ => ret tt) st.
Proof.
  intros Hd Hg. rewrite (processMessage_decoded _ _ _ _ _ _ Hd).
  rewrite Hg, (extract_truthy _ _ Hg). reflexivity.
Qed.

(** C7: a valid envelope [{event: 'prescription.ready', data: D}] published on
    [orders.42] (only the [*] subscription sees it) reaches the prescription
    room, when it has a member, as one emission named
    [orders.42:prescription.ready] carrying exactly [D]; the same envelope on
    a group channel is emitted to the group room under the bare name
    [prescription.ready].  (A valid envelope is one the decode accepts: [D]
    is truthy.) *)
Theorem prescription_event_prefixed (message : string) (d D : json) (st : state) :
  json_parse message = Some d ->
  get_prop d "event" = Some (JStr "prescription.ready") ->
  get_prop d "data" = Some D ->
  truthy (Some D) = true ->
  0 < room_count (rooms st) "prescription" ->
  run (on_bus_message message "orders.42") st =
    (st, [BroadcastToPrescriptionRoom "orders.42" "prescription.ready" D;
          Send (ToRoom "prescription") (JStr "orders.42:prescription.ready") [D]], Ok tt) /\
  (forall channel g (st' : state),
     extractGroupIdFromChannel channel = Some g ->
     0 < room_count (rooms st') ("group_" ++ g) ->
     run (processMessage message channel true) st' =
       (st', [BroadcastToClients channel (JStr "prescription.ready") D g;
              Send (ToRoom ("group_" ++ g)) (JStr "prescription.ready") [D]], Ok tt)).
Proof.
  intros Hp He Hx Tx Hc. split.
  - unfold run, on_bus_message. change (matches_antrian_pattern "orders.42") with false.
    cbv beta iota zeta delta [bind ret].
    rewrite (processMessage_decoded _ _ _ _ _ _ (decode_envelope_ok _ _ _ _ st Hp He Hx eq_refl Tx)).
    mred. change (starts_with "prescription." "prescription.ready") with true. cbv iota beta.
    destruct (room_count (rooms st) "prescription") as [| n]; [lia |]. reflexivity.
  - intros channel g st' Hg Hc'. unfold run.
    rewrite (processMessage_group _ _ _ _ _ _
               (decode_envelope_ok _ _ _ _ st' Hp He Hx eq_refl Tx) Hg).
    mred. destruct (room_count (rooms st') ("group_" ++ g)) as [| n]; [lia |]. reflexivity.
Qed.

Lemma prescription_event_prefixed_witness :
  let msg := dq "{'event':'prescription.ready','data':{'n':1}}" in
  let st := mkState [("prescription", ["a"])] [("a", mkConn "a" "t" "ip")] [] in
  run (on_bus_message msg "orders.42") st =
    (st, [BroadcastToPrescriptionRoom "orders.42" "prescription.ready" (JObj [("n", JNum 1 0)]);
          Send (ToRoom "prescription") (JStr "orders.42:prescription.ready") [JObj [("n", JNum 1 0)]]],
     Ok tt).
Proof.
  intros msg st.
  refine (proj1 (prescription_event_prefixed msg
    (JObj [("event", JStr "prescription.ready"); ("data", JObj [("n", JNum 1 0)])])
    (JObj [("n", JNum 1 0)]) st _ _ _ _ _)); [reflexivity | reflexivity | reflexivity | reflexivity |].
  cbv; lia.
Defined.

(** ** C10: group-channel classification *)

Lemma take_digits_spec (s : lchars) :
  s = fst (take_digits s) ++ snd (take_digits s) /\
  all_digits (fst (take_digits s)) = true /\ head_not_digit (snd (take_digits s)) = true.
Proof.
  induction s as [| c r IH]; [repeat split |].
  simpl. destruct (is_digit c) eqn:Dc.
  - destruct (take_digits r) as [d r']. simpl in *. destruct IH as (E & A & Hn).
    rewrite <- E. rewrite Dc, A. auto.
  - simpl. rewrite Dc. auto.
Qed.

Lemma digit_split_unique (d r d' r' : lchars) :
  d ++ r = d' ++ r' -> all_digits d = true -> head_not_digit r = true ->
  all_digits d' = true -> head_not_digit r' = true -> d = d' /\ r = r'.
Proof.
  revert d'; induction d as [| c d IH]; intros d' E A Hn A' Hn'.
  - destruct d' as [| c' d']; [auto |]. simpl in E. subst r.
    simpl in Hn, A'. apply andb_true_iff in A' as [Dc _]. rewrite Dc in Hn. discriminate.
  - destruct d' as [| c' d'].
    + simpl in E. subst r'. simpl in Hn', A. apply andb_true_iff in A as [Dc _].
      rewrite Dc in Hn'. discriminate.
    + simpl in E. injection E as <- E. simpl in A, A'.
      apply andb_true_iff in A as [_ A]. apply andb_true_iff in A' as [_ A'].
      destruct (IH d' E A Hn A' Hn') as [<- <-]. auto.
Qed.

Lemma take_digits_app (d r : lchars) :
  all_digits d = true -> head_not_digit r = true -> take_digits (d ++ r) = (d, r).
Proof.
  intros A Hn. destruct (take_digits_spec (d ++ r)) as (E & A' & Hn').
  destruct (digit_split_unique _ _ _ _ E A Hn A' Hn') as [E1 E2].
  destruct (take_digits (d ++ r)). simpl in *. subst. reflexivity.
Qed.

Lemma lprefix_self (p r : lchars) : lprefix p (p ++ r) = true.
Proof.
  induction p as [| c p IH]; [reflexivity |]. simpl. rewrite Ascii.eqb_refl. exact IH.
Qed.

Lemma match_here_some (s d : lchars) :
  match_here s = Some d <->
  exists rest, s = group_lit ++ d ++ rest /\ d <> [] /\ all_digits d = true /\
               head_not_digit rest = true.
Proof.
  unfold match_here. split.
  - destruct (lprefix group_lit s) eqn:P; [| discriminate].
    apply lprefix_app in P.
    destruct (take_digits_spec (skipn (List.length group_lit) s)) as (E & A & Hn).
    destruct (fst (take_digits _)) as [| c r] eqn:F; [discriminate |].
    intros H; injection H as <-. exists (snd (take_digits (skipn (List.length group_lit) s))).
    split; [| split; [discriminate | auto]].
    rewrite P at 1. rewrite E at 1. reflexivity.
  - intros (rest & -> & Ne & A & Hn). rewrite lprefix_self.
    assert (Sk : skipn (List.length group_lit) (group_lit ++ d ++ rest) = d ++ rest).
    { rewrite skipn_app, skipn_all, Nat.sub_diag. reflexivity. }
    rewrite Sk, take_digits_app by assumption. simpl.
    destruct d; [congruence | reflexivity].
Qed.

Lemma match_here_none (s : lchars) :
  match_here s = None <-> ~ occurrence_at s [].
Proof.
  split.
  - intros H (c & r & E & Dc). rewrite app_nil_l in E. subst s.
    destruct (take_digits_spec (c :: r)) as (E & A & Hn).
    assert (Hm : match_here (group_lit ++ c :: r) = Some (fst (take_digits (c :: r)))).
    { apply match_here_some. exists (snd (take_digits (c :: r))). split; [| split; [| auto]].
      - rewrite <- E. reflexivity.
      - simpl. rewrite Dc. destruct (take_digits r). discriminate. }
    congruence.
  - intros H. destruct (match_here s) as [d|] eqn:M; [exfalso | reflexivity].
    apply match_here_some in M as (rest & E & Ne & A & _).
    destruct d as [| c d]; [congruence |]. apply H. exists c, (d ++ rest).
    split; [exact E |]. simpl in A. apply andb_true_iff in A as [Dc _]. exact Dc.
Qed.

Lemma occurrence_at_cons (a : ascii) (r pre : lchars) :
  occurrence_at (a :: r) (a :: pre) <-> occurrence_at r pre.
Proof.
  split; intros (c & r' & E & Dc); exists c, r'; split; auto.
  - simpl in E. injection E as E. exact E.
  - simpl. rewrite E. reflexivity.
Qed.

Lemma occurrence_at_head (a b : ascii) (r pre : lchars) :
  occurrence_at (a :: r) (b :: pre) -> b = a.
Proof. intros (c & r' & E & _). simpl in E. injection E as <- _. reflexivity. Qed.

Lemma scan_group_some (s d : lchars) :
  scan_group s = Some d ->
  exists pre rest, group_occurrence s pre d rest /\
                   (forall pre', occurrence_at s pre' -> List.length pre <= List.length pre').
Proof.
  revert d; induction s as [| a r IH]; intros d H; [discriminate |].
  simpl in H. destruct (match_here (a :: r)) as [d'|] eqn:M.
  - injection H as <-. apply match_here_some in M as (rest & E & Ne & A & Hn).
    exists [], rest. split; [split; auto | intros; simpl; lia].
  - destruct (IH d H) as (pre & rest & (E & Ne & A & Hn) & Min).
    exists (a :: pre), rest. split.
    + split; [rewrite E at 1; reflexivity | auto].
    + intros [| b pre'] Occ.
      * exfalso. apply match_here_none in M. contradiction.
      * pose proof (occurrence_at_head _ _ _ _ Occ) as ->.
        apply occurrence_at_cons in Occ. simpl. specialize (Min pre' Occ). lia.
Qed.

Lemma scan_group_none (s : lchars) :
  scan_group s = None <-> forall pre, ~ occurrence_at s pre.
Proof.
  split.
  - induction s as [| a r IH]; intros H pre Occ.
    + destruct Occ as (c & r' & E & _). destruct pre; discriminate.
    + simpl in H. destruct (match_here (a :: r)) eqn:M; [discriminate |].
      destruct pre as [| b pre].
      * apply match_here_none in M. contradiction.
      * pose proof (occurrence_at_head _ _ _ _ Occ) as ->.
        apply occurrence_at_cons in Occ. exact (IH H pre Occ).
  - intros H. destruct (scan_group s) as [d|] eqn:S; [exfalso | reflexivity].
    destruct (scan_group_some _ _ S) as (pre & rest & (E & Ne & A & _) & _).
    destruct d as [| c d]; [congruence |]. apply (H pre). exists c, (d ++ rest).
    split; [exact E |]. simpl in A. apply andb_true_iff in A as [Dc _]. exact Dc.
Qed.

Lemma app_same_length {A} (l1 l2 r1 r2 : list A) :
  List.length l1 = List.length l2 -> l1 ++ r1 = l2 ++ r2 -> l1 = l2 /\ r1 = r2.
Proof.
  revert l2; induction l1 as [| x l1 IH]; intros [| y l2] L E; try discriminate; auto.
  simpl in *. injection E as <- E. injection L as L. destruct (IH l2 L E) as [-> ->]. auto.
Qed.

Lemma scan_group_iff (s d : lchars) :
  scan_group s = Some d <->
  exists pre rest, group_occurrence s pre d rest /\
                   (forall pre', occurrence_at s pre' -> List.length pre <= List.length pre').
Proof.
  split; [apply scan_group_some |].
  intros (pre & rest & (E & Ne & A & Hn) & Min).
  assert (Occ : occurrence_at s pre).
  { destruct d as [| c d]; [congruence |]. exists c, (d ++ rest). split; [exact E |].
    simpl in A. apply andb_true_iff in A as [Dc _]. exact Dc. }
  destruct (scan_group s) as [d'|] eqn:S.
  - destruct (scan_group_some _ _ S) as (pre' & rest' & (E' & Ne' & A' & Hn') & Min').
    assert (Occ' : occurrence_at s pre').
    { destruct d' as [| c d']; [congruence |]. exists c, (d' ++ rest'). split; [exact E' |].
      simpl in A'. apply andb_true_iff in A' as [Dc _]. exact Dc. }
    specialize (Min _ Occ'). specialize (Min' _ Occ).
    rewrite E in E'. apply app_same_length in E' as [_ E']; [| lia].
    apply app_inv_head in E'.
    destruct (digit_split_unique _ _ _ _ E' A Hn A' Hn') as [-> _]. reflexivity.
  - exfalso. apply scan_group_none with (pre := pre) in S. contradiction.
Qed.

(** What [broadcastToClients] does inside processMessage's try: the call is
    recorded, then at most the one emission of the bare event to the group
    room, which happens when the room has a member and the event converts to
    a string and is not a reserved socket.io name. *)
Lemma broadcastToClients_outcome (channel : string) (e x : json) (g : string) (st : state) :
  exists G,
    try_catch (broadcastToClients channel e x g) (fun _ => ret tt) st =
      (st, BroadcastToClients channel e x g :: G, Ok tt) /\
    (G = [] \/ G = [Send (ToRoom ("group_" ++ g)) e [x]]) /\
    (0 < room_count (rooms st) ("group_" ++ g) -> tostr e <> None -> reserved_event e = false ->
     G = [Send (ToRoom ("group_" ++ g)) e [x]]).
Proof.
  mred. cbv delta [tostr_u] beta iota.
  destruct (room_count (rooms st) ("group_" ++ g)) as [| n].
  - exists []. simpl. split; [reflexivity | split; [left; reflexivity | intros; lia]].
  - destruct (tostr e) as [s|] eqn:T.
    + destruct (reserved_event e) eqn:R.
      * exists []. simpl. split; [reflexivity | split; [left; reflexivity | intros; discriminate]].
      * exists [Send (ToRoom ("group_" ++ g)) e [x]]. simpl.
        split; [reflexivity | split; [right; reflexivity | auto]].
    + exists []. simpl. split; [reflexivity | split; [left; reflexivity | intros _ C; congruence]].
Qed.

Lemma string_list_ascii_eq (g : string) (d : lchars) :
  string_of_list_ascii d = g <-> d = list_ascii_of_string g.
Proof.
  split; intros H.
  - subst g. symmetry. apply list_ascii_of_string_of_list_ascii.
  - subst d. apply string_of_list_ascii_of_string.
Qed.

(** C10: extractGroupIdFromChannel is an unanchored search: it returns [g]
    exactly when the channel contains [antrian.group.] immediately followed
    by a digit, the first such occurrence being followed by the maximal digit
    run [g]; it returns null exactly when there is no such occurrence.  A
    valid envelope received on the [antrian.*] subscription on such a channel
    is handed to broadcastToClients for group [g] (room [group_g]), which
    emits the bare event there when that room has a member (and the event is
    an emittable name). *)
Theorem extractGroupId_unanchored (channel g : string) :
  (extractGroupIdFromChannel channel = Some g <->
   exists pre rest,
     group_occurrence (list_ascii_of_string channel) pre (list_ascii_of_string g) rest /\
     (forall pre', occurrence_at (list_ascii_of_string channel) pre' ->
                   List.length pre <= List.length pre')) /\
  (extractGroupIdFromChannel channel = None <->
   forall pre, ~ occurrence_at (list_ascii_of_string channel) pre) /\
  (forall message d e x st,
     extractGroupIdFromChannel channel = Some g ->
     json_parse message = Some d -> get_prop d "event" = Some e -> get_prop d "data" = Some x ->
     truthy (Some e) = true -> truthy (Some x) = true ->
     exists G,
       run (processMessage message channel true) st =
         (st, BroadcastToClients channel e x g :: G, Ok tt) /\
       (G = [] \/ G = [Send (ToRoom ("group_" ++ g)) e [x]]) /\
       (0 < room_count (rooms st) ("group_" ++ g) -> tostr e <> None -> reserved_event e = false ->
        G = [Send (ToRoom ("group_" ++ g)) e [x]])).
Proof.
  unfold extractGroupIdFromChannel. split; [| split].
  - destruct (scan_group (list_ascii_of_string channel)) as [d|] eqn:S; simpl.
    + rewrite scan_group_iff in S. split.
      * intros H; injection H as H. apply string_list_ascii_eq in H. subst d. exact S.
      * intros (pre & rest & Occ & Min). f_equal. apply string_list_ascii_eq.
        destruct S as (pre' & rest' & Occ' & Min').
        assert (Hs : scan_group (list_ascii_of_string channel) = Some d).
        { apply scan_group_iff. exists pre', rest'. auto. }
        assert (Hg : scan_group (list_ascii_of_string channel) = Some (list_ascii_of_string g)).
        { apply scan_group_iff. exists pre, rest. auto. }
        congruence.
    + split; [discriminate |]. intros (pre & rest & Occ & Min). exfalso.
      apply scan_group_none with (pre := pre) in S. apply S.
      destruct Occ as (E & Ne & A & _).
      destruct (list_ascii_of_string g) as [| c r]; [congruence |].
      exists c, (r ++ rest). split; [exact E |]. simpl in A. apply andb_true_iff in A as [Dc _]. exact Dc.
  - destruct (scan_group (list_ascii_of_string channel)) as [d|] eqn:S; simpl.
    + split; [discriminate |]. intros H. exfalso.
      destruct (scan_group_some _ _ S) as (pre & rest & (E & Ne & A & _) & _).
      destruct d as [| c r]; [congruence |]. apply (H pre). exists c, (r ++ rest).
      split; [exact E |]. simpl in A. apply andb_true_iff in A as [Dc _]. exact Dc.
    + rewrite <- scan_group_none. tauto.
  - intros message d e x st Hg Hp He Hx Te Tx. unfold run.
    rewrite (processMessage_group message channel g e x st
               (decode_envelope_ok _ _ _ _ st Hp He Hx Te Tx) Hg).
    apply broadcastToClients_outcome.
Qed.

(** ** C1: group channels on the two subscriptions *)

Lemma antrian_prefix (channel : string) :
  starts_with "antrian." channel = true -> exists r, channel = ("antrian." ++ r)%string.
Proof.
  intro H.
  do 8 (destruct channel as [| ?c channel]; [discriminate H |];
        cbn [starts_with] in H; apply andb_true_iff in H as [Hc H]; apply Ascii.eqb_eq in Hc; subst).
  exists channel. reflexivity.
Qed.

Lemma antrian_not_reserved (channel ev : string) :
  starts_with "antrian." channel = true ->
  reserved_event (JStr (channel ++ ":" ++ ev)) = false.
Proof. intros H. destruct (antrian_prefix _ H) as [r ->]. reflexivity. Qed.

(** The [*] copy of a decoded envelope on an [antrian.] channel: only an
    event name starting with [prescription.] produces anything, namely the
    prescription-room call and, when that room has a member, its emission. *)
Lemma handleGeneral_antrian (channel : string) (e x : json) (st : state) :
  starts_with "antrian." channel = true ->
  try_catch (handleGeneralMessage channel e x) (fun _ => ret tt) st =
  (st, match e with
       | JStr ev =>
           if starts_with "prescription." ev then
             BroadcastToPrescriptionRoom channel ev x ::
               (if Nat.eqb (room_count (rooms st) "prescription") 0 then []
                else [Send (ToRoom "prescription") (JStr (channel ++ ":" ++ ev)) [x]])
           else []
       | _ => []
       end, Ok tt).
Proof.
  intros Ha. destruct e as [| b | m ex | ev | l | kvs]; try reflexivity.
  mred. destruct (starts_with "prescription." ev).
  - destruct (Nat.eqb (room_count (rooms st) "prescription") 0); [reflexivity |].
    rewrite (antrian_not_reserved _ _ Ha). reflexivity.
  - rewrite Ha. reflexivity.
Qed.

(** C1 (as stated, refuted): the envelope
    [{event: 'prescription.ready', data: {x: 1}}] published on
    [antrian.group.3] is multicast to [group_3] by the [antrian.*] copy, and
    the [*] copy also sends it to the prescription room under the name
    [antrian.group.3:prescription.ready]. *)
Lemma group_channel_prescription_leak :
  let st := mkState [("group_3", ["s1"]); ("prescription", ["s2"])] [] [] in
  let D := JObj [("x", JNum 1 0)] in
  run (on_bus_message (dq "{'event':'prescription.ready','data':{'x':1}}") "antrian.group.3") st
  = (st, [BroadcastToClients "antrian.group.3" (JStr "prescription.ready") D "3";
          Send (ToRoom "group_3") (JStr "prescription.ready") [D];
          BroadcastToPrescriptionRoom "antrian.group.3" "prescription.ready" D;
          Send (ToRoom "prescription") (JStr "antrian.group.3:prescription.ready") [D]], Ok tt).
Proof. reflexivity. Qed.

(** C1 (amended): a valid envelope (event and data truthy) published on a
    channel that starts with [antrian.] and carries group id [g] produces,
    across both subscriptions and with no state change: one
    BroadcastToClients call for group [g], whose only emission is the bare
    event to [group_g] (made when that room has a member and the event is an
    emittable string); then, only when the event is a string starting with
    [prescription.], one BroadcastToPrescriptionRoom call, which emits
    [channel:event] to the prescription room when it has a member.  Nothing
    else is ever emitted, in particular no global broadcast. *)
Theorem group_message_outcome (message channel g : string) (d e x : json) (st : state) :
  matches_antrian_pattern channel = true ->
  extractGroupIdFromChannel channel = Some g ->
  json_parse message = Some d -> get_prop d "event" = Some e -> get_prop d "data" = Some x ->
  truthy (Some e) = true -> truthy (Some x) = true ->
  exists G P,
    run (on_bus_message message channel) st =
      (st, BroadcastToClients channel e x g :: G ++ P, Ok tt) /\
    (G = [] \/ G = [Send (ToRoom ("group_" ++ g)) e [x]]) /\
    (0 < room_count (rooms st) ("group_" ++ g) -> tostr e <> None -> reserved_event e = false ->
     G = [Send (ToRoom ("group_" ++ g)) e [x]]) /\
    (forall ev, e = JStr ev -> starts_with "prescription." ev = true ->
       P = BroadcastToPrescriptionRoom channel ev x ::
             (if Nat.eqb (room_count (rooms st) "prescription") 0 then []
              else [Send (ToRoom "prescription") (JStr (channel ++ ":" ++ ev)) [x]])) /\
    ((forall ev, e = JStr ev -> starts_with "prescription." ev = false) -> P = []) /\
    (forall t n a, In (Send t n a) (G ++ P) -> t <> ToAll).
Proof.
  intros Ha Hg Hp He Hx Te Tx.
  assert (Hd : forall st' : state, decode_envelope message st' = (st', [], Ok (Some (e, x)))).
  { intro st'. eapply decode_envelope_ok; eauto. }
  destruct (broadcastToClients_outcome channel e x g st) as (G & EG & GG & GS).
  exists G, (match e with
             | JStr ev =>
                 if starts_with "prescription." ev then
                   BroadcastToPrescriptionRoom channel ev x ::
                     (if Nat.eqb (room_count (rooms st) "prescription") 0 then []
                      else [Send (ToRoom "prescription") (JStr (channel ++ ":" ++ ev)) [x]])
                 else []
             | _ => []
             end).
  split; [| split; [exact GG | split; [exact GS | split; [| split]]]].
  - unfold run, on_bus_message. rewrite Ha. unfold bind at 1.
    rewrite (processMessage_group _ _ _ _ _ _ (Hd st) Hg), EG.
    rewrite (processMessage_decoded _ _ _ _ _ _ (Hd st)).
    rewrite (handleGeneral_antrian _ _ _ _ Ha). reflexivity.
  - intros ev -> ->. reflexivity.
  - intros H. destruct e; try reflexivity. rewrite (H _ eq_refl). reflexivity.
  - intros t n a Hin ->. apply in_app_or in Hin as [Hin | Hin].
    + destruct GG as [-> | ->]; [contradiction | ].
      destruct Hin as [Hin | []]. discriminate.
    + destruct e; try contradiction.
      destruct (starts_with "prescription." s); [| contradiction].
      destruct Hin as [Hin | Hin]; [discriminate |].
      destruct (Nat.eqb _ 0); [contradiction |]. destruct Hin as [Hin | []]. discriminate.
Qed.

Lemma group_message_outcome_witness :
  let st := mkState [("group_3", ["s1"]); ("prescription", ["s2"])] [] [] in
  let msg := dq "{'event':'queue.update','data':{'x':1}}" in
  exists G P,
    run (on_bus_message msg "antrian.group.3") st =
      (st, BroadcastToClients "antrian.group.3" (JStr "queue.update") (JObj [("x", JNum 1 0)]) "3"
             :: G ++ P, Ok tt) /\
    G = [Send (ToRoom "group_3") (JStr "queue.update") [JObj [("x", JNum 1 0)]]] /\ P = [].
Proof.
  intros st msg.
  destruct (group_message_outcome msg "antrian.group.3" "3"
              (JObj [("event", JStr "queue.update"); ("data", JObj [("x", JNum 1 0)])])
              (JStr "queue.update") (JObj [("x", JNum 1 0)]) st
              eq_refl eq_refl eq_refl eq_refl eq_refl eq_refl eq_refl)
    as (G & P & E & _ & GS & _ & PN & _).
  exists G, P. split; [exact E | split].
  - apply GS; [cbv; lia | discriminate | reflexivity].
  - apply PN. intros ev Hev. injection Hev as <-. reflexivity.
Defined.

(** ** Maps, sets and the adapter *)

Lemma map_get_set {V} (k k' : string) (v : V) (m : list (string * V)) :
  map_get k' (map_set k v m) = if String.eqb k' k then Some v else map_get k' m.
Proof.
  induction m as [| [k0 v0] r IH]; simpl.
  - destruct (String.eqb k' k); reflexivity.
  - destruct (String.eqb_spec k k0) as [-> | Ne]; simpl.
    + destruct (String.eqb k' k0); reflexivity.
    + rewrite IH. destruct (String.eqb_spec k' k) as [-> | ?]; [| reflexivity].
      apply String.eqb_neq in Ne. rewrite Ne. reflexivity.
Qed.

Lemma map_get_not_in {V} (k : string) (m : list (string * V)) :
  ~ In k (map fst m) -> map_get k m = None.
Proof.
  induction m as [| [k0 v0] r IH]; simpl; intro H; [reflexivity |].
  destruct (String.eqb_spec k k0) as [-> | _]; [tauto | auto].
Qed.

Lemma map_get_none_not_in {V} (k : string) (m : list (string * V)) :
  map_get k m = None -> ~ In k (map fst m).
Proof.
  induction m as [| [k0 v0] r IH]; simpl; intros H; [tauto |].
  destruct (String.eqb_spec k k0) as [-> | Ne]; [discriminate |].
  intros [E | Hin]; [congruence | exact (IH H Hin)].
Qed.

Lemma map_get_delete_other {V} (k k' : string) (m : list (string * V)) :
  k' <> k -> map_get k' (map_delete k m) = map_get k' m.
Proof.
  intro Ne. induction m as [| [k0 v0] r IH]; simpl; [reflexivity |].
  destruct (String.eqb_spec k k0) as [-> | _]; simpl.
  - apply String.eqb_neq in Ne. rewrite Ne. reflexivity.
  - rewrite IH. reflexivity.
Qed.

Lemma map_get_delete_same {V} (k : string) (m : list (string * V)) :
  NoDup (map fst m) -> map_get k (map_delete k m) = None.
Proof.
  induction m as [| [k0 v0] r IH]; simpl; intro N; [reflexivity |].
  inversion N as [| ? ? Nin N']; subst.
  destruct (String.eqb_spec k k0) as [-> | Ne]; simpl.
  - apply map_get_not_in. exact Nin.
  - apply String.eqb_neq in Ne. rewrite Ne. auto.
Qed.

Lemma map_get_app_new {V} (k k' : string) (v : V) (m : list (string * V)) :
  map_get k' (m ++ [(k, v)]) =
  match map_get k' m with Some x => Some x | None => if String.eqb k' k then Some v else None end.
Proof.
  induction m as [| [k0 v0] r IH]; simpl; [reflexivity |].
  destruct (String.eqb k' k0); [reflexivity | exact IH].
Qed.

Lemma in_keys_set {V} (x k : string) (v : V) (m : list (string * V)) :
  In x (map fst (map_set k v m)) -> x = k \/ In x (map fst m).
Proof.
  induction m as [| [k0 v0] r IH]; simpl; [intros [-> | []]; auto |].
  destruct (String.eqb_spec k k0) as [-> | _]; simpl; [tauto |].
  intros [-> | H]; [tauto |]. destruct (IH H); tauto.
Qed.

Lemma in_keys_delete {V} (x k : string) (m : list (string * V)) :
  In x (map fst (map_delete k m)) -> In x (map fst m).
Proof.
  induction m as [| [k0 v0] r IH]; simpl; [tauto |].
  destruct (String.eqb k k0); simpl; [tauto |]. intros [-> | H]; [tauto | right; auto].
Qed.

Lemma nodup_set {V} (k : string) (v : V) (m : list (string * V)) :
  NoDup (map fst m) -> NoDup (map fst (map_set k v m)).
Proof.
  induction m as [| [k0 v0] r IH]; simpl; intro N.
  - constructor; [tauto | constructor].
  - inversion N as [| ? ? Nin N']; subst.
    destruct (String.eqb_spec k k0) as [-> | Ne]; simpl; [constructor; auto |].
    constructor; [| auto]. intros H. apply in_keys_set in H as [-> | H]; [congruence | tauto].
Qed.

Lemma nodup_delete {V} (k : string) (m : list (string * V)) :
  NoDup (map fst m) -> NoDup (map fst (map_delete k m)).
Proof.
  induction m as [| [k0 v0] r IH]; simpl; intro N; [constructor |].
  inversion N as [| ? ? Nin N']; subst.
  destruct (String.eqb k k0); simpl; [exact N' |].
  constructor; [| auto]. intros H. apply in_keys_delete in H. tauto.
Qed.

Lemma set_mem_app (s : string) (l1 l2 : list string) :
  set_mem s (l1 ++ l2) = set_mem s l1 || set_mem s l2.
Proof. unfold set_mem. apply existsb_app. Qed.

Lemma set_mem_add (s x : string) (ms : list string) :
  set_mem s (set_add x ms) = String.eqb s x || set_mem s ms.
Proof.
  unfold set_add. destruct (set_mem x ms) eqn:E.
  - destruct (String.eqb_spec s x) as [-> | _]; [rewrite E; reflexivity | reflexivity].
  - rewrite set_mem_app. simpl. rewrite orb_false_r, orb_comm. reflexivity.
Qed.

Lemma set_mem_delete (s x : string) (ms : list string) :
  set_mem s (set_delete x ms) = negb (String.eqb s x) && set_mem s ms.
Proof.
  unfold set_mem, set_delete. induction ms as [| y r IH]; simpl.
  - rewrite andb_false_r. reflexivity.
  - destruct (String.eqb_spec x y) as [-> | Ne]; simpl.
    + rewrite IH. destruct (String.eqb_spec s y); simpl; [reflexivity |].
      destruct (existsb _ r); reflexivity.
    + rewrite IH. destruct (String.eqb_spec s y) as [-> | Ne']; simpl.
      * apply String.eqb_neq in Ne. rewrite String.eqb_sym, Ne. reflexivity.
      * destruct (String.eqb s x); reflexivity.
Qed.

Lemma set_delete_nil (s x : string) (ms : list string) :
  set_delete x ms = [] -> set_mem s ms = true -> s = x.
Proof.
  intros E M. destruct (String.eqb_spec s x) as [| Ne]; [assumption | exfalso].
  assert (H : set_mem s (set_delete x ms) = true).
  { rewrite set_mem_delete, M. apply String.eqb_neq in Ne. rewrite Ne. reflexivity. }
  rewrite E in H. discriminate.
Qed.

Lemma is_member_add (room sid r s : string) (rs : adapter_rooms) :
  is_member (adapter_add room sid rs) r s = (String.eqb r room && String.eqb s sid) || is_member rs r s.
Proof.
  unfold is_member, adapter_add. destruct (map_get room rs) as [ms|] eqn:E.
  - rewrite map_get_set. destruct (String.eqb_spec r room) as [-> | _]; simpl.
    + rewrite E. apply set_mem_add.
    + reflexivity.
  - rewrite map_get_app_new. destruct (map_get r rs) as [x|] eqn:Er.
    + destruct (String.eqb_spec r room) as [-> | _]; [congruence | reflexivity].
    + destruct (String.eqb r room); simpl; [| reflexivity].
      unfold set_mem. simpl. destruct (String.eqb s sid); reflexivity.
Qed.

Lemma is_member_del (room sid r s : string) (rs : adapter_rooms) :
  NoDup (map fst rs) ->
  is_member (adapter_del room sid rs) r s = negb (String.eqb r room && String.eqb s sid) && is_member rs r s.
Proof.
  intro N. unfold is_member, adapter_del. destruct (map_get room rs) as [ms|] eqn:E.
  - destruct (set_delete sid ms) as [| y ys] eqn:D.
    + destruct (String.eqb_spec r room) as [-> | Ne].
      * rewrite map_get_delete_same by exact N. rewrite E. simpl.
        destruct (String.eqb_spec s sid) as [-> | Ns]; [reflexivity |].
        destruct (set_mem s ms) eqn:M; [| reflexivity].
        exfalso. exact (Ns (set_delete_nil _ _ _ D M)).
      * rewrite map_get_delete_other by exact Ne. reflexivity.
    + rewrite map_get_set. destruct (String.eqb_spec r room) as [-> | _]; [| reflexivity].
      rewrite <- D, set_mem_delete, E. reflexivity.
  - destruct (String.eqb_spec r room) as [-> | _]; [rewrite E; destruct (String.eqb s sid); reflexivity |].
    reflexivity.
Qed.

Lemma nodup_add (room sid : string) (rs : adapter_rooms) :
  NoDup (map fst rs) -> NoDup (map fst (adapter_add room sid rs)).
Proof.
  intro N. unfold adapter_add. destruct (map_get room rs) eqn:E.
  - apply nodup_set, N.
  - rewrite map_app. simpl. apply NoDup_app; [exact N | constructor; [tauto | constructor] |].
    intros x Hx [-> | []]. exact (map_get_none_not_in _ _ E Hx).
Qed.

Lemma nodup_del (room sid : string) (rs : adapter_rooms) :
  NoDup (map fst rs) -> NoDup (map fst (adapter_del room sid rs)).
Proof.
  intro N. unfold adapter_del. destruct (map_get room rs); [| exact N].
  destruct (set_delete sid l); [apply nodup_delete, N | apply nodup_set, N].
Qed.

Lemma map_get_in {V} (k : string) (v : V) (m : list (string * V)) :
  NoDup (map fst m) -> (map_get k m = Some v <-> In (k, v) m).
Proof.
  induction m as [| [k0 v0] r IH]; simpl; intro N; [split; [discriminate | tauto] |].
  inversion N as [| ? ? Nin N']; subst.
  destruct (String.eqb_spec k k0) as [-> | Ne].
  - split; [intros H; injection H as ->; auto |].
    intros [E | Hin]; [injection E as ->; reflexivity |].
    exfalso. apply Nin. apply (in_map fst) in Hin. exact Hin.
  - rewrite IH by exact N'. split; [auto |]. intros [E | Hin]; [injection E; congruence | exact Hin].
Qed.

Lemma in_socket_rooms (rs : adapter_rooms) (room sid : string) :
  NoDup (map fst rs) -> (In room (socket_rooms rs sid) <-> is_member rs room sid = true).
Proof.
  intro N. unfold socket_rooms, is_member. rewrite in_map_iff. split.
  - intros ([r ms] & <- & Hin). apply filter_In in Hin as [Hin M].
    apply (map_get_in r ms rs N) in Hin. simpl. rewrite Hin. exact M.
  - destruct (map_get room rs) as [ms|] eqn:E; [| discriminate]. intro M.
    exists (room, ms). split; [reflexivity |]. apply filter_In. split; [| exact M].
    apply (map_get_in room ms rs N). exact E.
Qed.

(** A run of leaves of [sid], one per listed room that passes [c]. *)
Lemma is_member_fold_del (c : string -> bool) (sid r s : string) (l : list string) (acc : adapter_rooms) :
  NoDup (map fst acc) ->
  NoDup (map fst (fold_left (fun acc room => if c room then adapter_del room sid acc else acc) l acc)) /\
  is_member (fold_left (fun acc room => if c room then adapter_del room sid acc else acc) l acc) r s =
  negb (c r && existsb (String.eqb r) l && String.eqb s sid) && is_member acc r s.
Proof.
  revert acc; induction l as [| room l IH]; intros acc N; cbn [fold_left existsb].
  - rewrite andb_false_r. simpl. auto.
  - assert (N1 : NoDup (map fst (if c room then adapter_del room sid acc else acc))).
    { destruct (c room); [apply nodup_del |]; exact N. }
    destruct (IH _ N1) as [N2 E]. split; [exact N2 |]. refine (eq_trans E _).
    destruct (c room) eqn:Cr.
    + rewrite is_member_del by exact N.
      destruct (String.eqb r room) eqn:Er; [apply String.eqb_eq in Er; subst room |]; simpl;
        rewrite ?Cr; destruct (String.eqb s sid), (c r), (existsb (String.eqb r) l),
          (is_member acc r s); reflexivity.
    + destruct (String.eqb r room) eqn:Er; [apply String.eqb_eq in Er; subst room |]; simpl;
        rewrite ?Cr; destruct (String.eqb s sid), (c r), (existsb (String.eqb r) l),
          (is_member acc r s); reflexivity.
Qed.

Lemma leave_groups_spec (sid r s : string) (rs : adapter_rooms) :
  NoDup (map fst rs) ->
  NoDup (map fst (leave_groups sid rs)) /\
  is_member (leave_groups sid rs) r s =
  negb (negb (String.eqb r sid) && starts_with "group_" r && String.eqb s sid) && is_member rs r s.
Proof.
  intro N. unfold leave_groups.
  destruct (is_member_fold_del (fun room => negb (String.eqb room sid) && starts_with "group_" room)
              sid r s (socket_rooms rs sid) rs N) as [N' E].
  split; [exact N' |]. rewrite E.
  destruct (String.eqb_spec s sid) as [-> | _]; [| rewrite !andb_false_r; reflexivity].
  destruct (existsb (String.eqb r) (socket_rooms rs sid)) eqn:X; [rewrite !andb_true_r; reflexivity |].
  destruct (is_member rs r sid) eqn:M; [| rewrite !andb_false_r; reflexivity].
  exfalso. apply (in_socket_rooms rs r sid N) in M.
  assert (existsb (String.eqb r) (socket_rooms rs sid) = true).
  { apply existsb_exists. exists r. split; [exact M | apply String.eqb_refl]. }
  congruence.
Qed.

(** ** Handler computations *)

Lemma set_rooms_id (st : state) : set_rooms (rooms st) st = st.
Proof. destruct st; reflexivity. Qed.

Lemma set_rooms_twice (a b : adapter_rooms) (st : state) : set_rooms a (set_rooms b st) = set_rooms a st.
Proof. destruct st; reflexivity. Qed.

Lemma m_iter_rooms (g : string -> M unit) (f : string -> adapter_rooms -> adapter_rooms)
      (l : list string) (st : state) :
  (forall room st', g room st' = (set_rooms (f room (rooms st')) st', [], Ok tt)) ->
  m_iter g l st = (set_rooms (fold_left (fun acc r => f r acc) l (rooms st)) st, [], Ok tt).
Proof.
  intro Hg. revert st; induction l as [| x l IH]; intro st.
  - simpl. rewrite set_rooms_id. reflexivity.
  - cbn [m_iter fold_left]. unfold bind. rewrite Hg, IH. simpl. rewrite set_rooms_twice. reflexivity.
Qed.

Lemma leave_previous_groups_eq (sid : string) (st : state) :
  leave_previous_groups sid st = (set_rooms (leave_groups sid (rooms st)) st, [], Ok tt).
Proof.
  unfold leave_previous_groups, leave_groups. unfold bind at 1, gets.
  rewrite (m_iter_rooms _ (fun room acc => if negb (String.eqb room sid) && starts_with "group_" room
                                         then adapter_del room sid acc else acc)).
  - reflexivity.
  - intros room st'. destruct (negb (String.eqb room sid) && starts_with "group_" room).
    + reflexivity.
    + unfold ret. rewrite set_rooms_id. reflexivity.
Qed.

Lemma destructure_some {S} (d : json) :
  d <> JNull -> destructure (S := S) (Some d) = ret d.
Proof. intro H. destruct d; try reflexivity. congruence. Qed.

Definition joined_payload (d : json) (gs now : string) : json :=
  jobj [("groupId", get_prop d "groupId"); ("groupName", get_prop d "groupName");
        ("roomName", Some (JStr ("group_" ++ gs))); ("timestamp", Some (JStr now))].

Lemma handleJoinGroup_ok (sid : string) (d : json) (now gs : string) (st : state) :
  d <> JNull ->
  truthy (get_prop d "groupId") = true ->
  tostr_u (get_prop d "groupId") = Some gs ->
  tostr_u (get_prop d "groupName") <> None ->
  handleJoinGroup sid (Some d) now st =
    (mkState (adapter_add ("group_" ++ gs) sid (leave_groups sid (rooms st))) (conns st)
       (if truthy (get_prop d "groupName") then
          match get_prop d "groupName" with Some n => map_set gs n (perma st) | None => perma st end
        else perma st),
     [Send (ToSocket sid) (JStr "joined-group") [joined_payload d gs now]], Ok tt).
Proof.
  intros Hn Ti Si Sn. unfold handleJoinGroup, joined_payload. rewrite (destructure_some d Hn).
  cbv beta iota zeta delta [bind ret act gets modify throw try_catch sio_emit to_s setGroupPermalink sock_join].
  remember (get_prop d "groupId") as gi eqn:Egi. remember (get_prop d "groupName") as gn eqn:Egn.
  clear Egi Egn.
  rewrite Ti, Si. cbn [negb].
  destruct (truthy gn) eqn:Tn.
  - destruct gn as [n|]; [| discriminate Tn].
    destruct (tostr_u (Some n)) as [sn|]; [| congruence].
    rewrite leave_previous_groups_eq. reflexivity.
  - destruct (tostr_u gn) as [sn|]; [| congruence].
    rewrite leave_previous_groups_eq. reflexivity.
Qed.

Lemma json_eq_null (d : json) : {d = JNull} + {d <> JNull}.
Proof. destruct d; [left; reflexivity | right; discriminate ..]. Qed.

Lemma handleJoinGroup_missing (sid : string) (d : json) (now : string) (st : state) :
  d <> JNull -> truthy (get_prop d "groupId") = false ->
  handleJoinGroup sid (Some d) now st =
    (st, [Send (ToSocket sid) (JStr "error") [JObj [("message", JStr "Group ID is required")]]], Ok tt).
Proof.
  intros Hn Ti. unfold handleJoinGroup. rewrite (destructure_some d Hn).
  cbv beta iota zeta delta [bind ret act gets modify throw try_catch sio_emit to_s emit_error].
  rewrite Ti. reflexivity.
Qed.

Lemma handleJoinGroup_nodata (sid : string) (data : option json) (now : string) (st : state) :
  data = None \/ data = Some JNull ->
  handleJoinGroup sid data now st =
    (st, [Send (ToSocket sid) (JStr "error") [JObj [("message", JStr "Failed to join group")]]], Ok tt).
Proof. intros [-> | ->]; reflexivity. Qed.

Lemma handleJoinGroup_rooms (sid : string) (data : option json) (now : string) (st : state) :
  rooms (st_of (handleJoinGroup sid data now st)) = rooms st \/
  exists gs, rooms (st_of (handleJoinGroup sid data now st)) =
             adapter_add ("group_" ++ gs) sid (leave_groups sid (rooms st)).
Proof.
  destruct data as [d|]; [| left; reflexivity].
  destruct (json_eq_null d) as [-> | Hn]; [left; reflexivity |].
  unfold handleJoinGroup. rewrite (destructure_some d Hn).
  cbv beta iota zeta delta [bind ret act gets modify throw try_catch sio_emit to_s setGroupPermalink
                            sock_join emit_error st_of].
  remember (get_prop d "groupId") as gi eqn:Egi. remember (get_prop d "groupName") as gn eqn:Egn.
  clear Egi Egn.
  destruct (truthy gi); cbn [negb]; [| left; reflexivity].
  destruct (tostr_u gi) as [gs|]; [| left; reflexivity].
  destruct (truthy gn) eqn:Tn.
  - destruct gn as [n|]; [| discriminate Tn].
    destruct (tostr_u (Some n)) as [sn|]; [| left; reflexivity].
    rewrite leave_previous_groups_eq. right. exists gs. reflexivity.
  - rewrite leave_previous_groups_eq. right. exists gs.
    destruct (tostr_u gn); reflexivity.
Qed.

Lemma handleLeaveGroup_ok (sid : string) (d : json) (now gs : string) (st : state) :
  d <> JNull -> tostr_u (get_prop d "groupId") = Some gs ->
  let rs1 := adapter_del ("group_" ++ gs) sid (rooms st) in
  handleLeaveGroup sid (Some d) now st =
    (mkState rs1 (conns st)
       (if Nat.eqb (room_count rs1 ("group_" ++ gs)) 0 then map_delete gs (perma st) else perma st),
     [Send (ToSocket sid) (JStr "left-group")
        [jobj [("groupId", get_prop d "groupId"); ("roomName", Some (JStr ("group_" ++ gs)));
               ("timestamp", Some (JStr now))]]], Ok tt).
Proof.
  intros Hn Si rs1. unfold handleLeaveGroup. rewrite (destructure_some d Hn).
  cbv beta iota zeta delta [bind ret act gets modify throw try_catch sio_emit to_s removeGroupPermalink
                            sock_leave getRoomClientCount].
  rewrite Si. unfold rs1. destruct (Nat.eqb _ 0); reflexivity.
Qed.

Lemma handleLeaveGroup_rooms (sid : string) (data : option json) (now : string) (st : state) :
  rooms (st_of (handleLeaveGroup sid data now st)) = rooms st \/
  exists gs, rooms (st_of (handleLeaveGroup sid data now st)) = adapter_del ("group_" ++ gs) sid (rooms st).
Proof.
  destruct data as [d|]; [| left; reflexivity].
  destruct (json_eq_null d) as [-> | Hn]; [left; reflexivity |].
  destruct (tostr_u (get_prop d "groupId")) as [gs|] eqn:Si.
  - right. exists gs. rewrite (handleLeaveGroup_ok sid d now gs st Hn Si). reflexivity.
  - left. unfold handleLeaveGroup. rewrite (destructure_some d Hn).
    cbv beta iota zeta delta [bind ret act gets modify throw try_catch sio_emit to_s emit_error st_of].
    rewrite Si. reflexivity.
Qed.

Lemma m_iter_keeps_rooms {A} (g : A -> M unit) (l : list A) (st : state) :
  (forall x st', rooms (st_of (g x st')) = rooms st') ->
  rooms (st_of (m_iter g l st)) = rooms st.
Proof.
  intro Hg. revert st; induction l as [| x l IH]; intro st; [reflexivity |].
  cbn [m_iter]. unfold bind. specialize (Hg x st). unfold st_of in *.
  destruct (g x st) as [[st1 o1] [[] | e]]; simpl in *; [| exact Hg].
  specialize (IH st1). destruct (m_iter g l st1) as [[st2 o2] r]. simpl in *. congruence.
Qed.

Lemma cleanupEmptyGroups_rooms (st : state) :
  rooms (st_of (cleanupEmptyGroups st)) = rooms st.
Proof.
  unfold cleanupEmptyGroups. unfold bind at 1, gets.
  match goal with |- context [m_iter ?g ?l st] =>
    assert (C : rooms (st_of (m_iter g l st)) = rooms st);
    [ apply m_iter_keeps_rooms | destruct (m_iter g l st) as [[st1 o1] r]; exact C ] end.
  intros roomName st'. unfold bind, getRoomClientCount, gets.
  destruct (Nat.eqb _ 0); reflexivity.
Qed.

Lemma on_disconnect_rooms (sid : string) (st : state) :
  rooms (st_of (on_disconnect sid st)) =
  fold_left (fun acc r => if (fun _ => true) r then adapter_del r sid acc else acc)
            (socket_rooms (rooms st) sid) (rooms st).
Proof.
  unfold on_disconnect. cbv beta iota delta [bind gets].
  rewrite (m_iter_rooms (sock_leave sid) (fun r acc => adapter_del r sid acc)) by reflexivity.
  cbv beta iota.
  match goal with |- context [cleanupEmptyGroups ?s] =>
    pose proof (cleanupEmptyGroups_rooms s) as C; destruct (cleanupEmptyGroups s) as [[st1 o1] [[] | e]]
  end; unfold st_of in *; simpl in *; exact C.
Qed.

Lemma step_rooms (now : string) (o : op) (st : state) :
  let rs' := rooms (st_of (step now o st)) in
  match o with
  | OpConnect sid _ => rs' = adapter_add sid sid (rooms st)
  | OpJoinGroup sid _ =>
      rs' = rooms st \/ exists gs, rs' = adapter_add ("group_" ++ gs) sid (leave_groups sid (rooms st))
  | OpLeaveGroup sid _ => rs' = rooms st \/ exists gs, rs' = adapter_del ("group_" ++ gs) sid (rooms st)
  | OpJoinPrescription sid => rs' = adapter_add "prescription" sid (rooms st)
  | OpLeavePrescription sid => rs' = adapter_del "prescription" sid (rooms st)
  | OpDisconnect sid =>
      rs' = fold_left (fun acc r => if (fun _ => true) r then adapter_del r sid acc else acc)
                      (socket_rooms (rooms st) sid) (rooms st)
  end.
Proof.
  destruct o as [sid a | sid data | sid data | sid | sid | sid]; cbn [step].
  - reflexivity.
  - apply handleJoinGroup_rooms.
  - apply handleLeaveGroup_rooms.
  - reflexivity.
  - reflexivity.
  - apply on_disconnect_rooms.
Qed.

(** ** C3: at most one group room per connection *)

Lemma amo_sub (rs rs' : adapter_rooms) (s : string) :
  (forall r, starts_with "group_" r = true -> r <> s ->
     is_member rs' r s = true -> is_member rs r s = true) ->
  at_most_one_other_group rs s -> at_most_one_other_group rs' s.
Proof. intros Hs A r1 r2 G1 G2 N1 N2 M1 M2. apply A; auto. Qed.

Lemma group_not_prescription (gs : string) : String.eqb "prescription" ("group_" ++ gs) = false.
Proof. reflexivity. Qed.

Lemma is_member_leave_join (G sid r s : string) (rs : adapter_rooms) :
  NoDup (map fst rs) ->
  is_member (adapter_add G sid (leave_groups sid rs)) r s =
  (String.eqb r G && String.eqb s sid) ||
  (negb (negb (String.eqb r sid) && starts_with "group_" r && String.eqb s sid) && is_member rs r s).
Proof.
  intro N. rewrite is_member_add. destruct (leave_groups_spec sid r s rs N) as [_ ->]. reflexivity.
Qed.

(** After a successful join of [G], the group rooms other than its own id
    room that hold [sid] are exactly [G]. *)
Lemma leave_join_own (G sid r : string) (rs : adapter_rooms) :
  NoDup (map fst rs) -> starts_with "group_" r = true -> r <> sid ->
  is_member (adapter_add G sid (leave_groups sid rs)) r sid = String.eqb r G.
Proof.
  intros N Gr Nr. rewrite is_member_leave_join by exact N.
  apply String.eqb_neq in Nr. rewrite Nr, Gr, String.eqb_refl.
  simpl. rewrite andb_true_r, orb_false_r. reflexivity.
Qed.

Lemma step_nodup (now : string) (o : op) (st : state) :
  NoDup (map fst (rooms st)) -> NoDup (map fst (rooms (st_of (step now o st)))).
Proof.
  intro N. pose proof (step_rooms now o st) as E. cbv zeta in E.
  destruct o as [sid a | sid data | sid data | sid | sid | sid]; cbv beta iota in E.
  - rewrite E. apply nodup_add, N.
  - destruct E as [-> | [gs ->]]; [exact N |].
    apply nodup_add. exact (proj1 (leave_groups_spec sid "" "" _ N)).
  - destruct E as [-> | [gs ->]]; [exact N | apply nodup_del, N].
  - rewrite E. apply nodup_add, N.
  - rewrite E. apply nodup_del, N.
  - rewrite E. exact (proj1 (is_member_fold_del (fun _ => true) sid "" "" _ _ N)).
Qed.

Lemma step_amo (now : string) (o : op) (st : state) (s : string) :
  NoDup (map fst (rooms st)) ->
  at_most_one_other_group (rooms st) s -> at_most_one_other_group (rooms (st_of (step now o st))) s.
Proof.
  intros N A. pose proof (step_rooms now o st) as E. cbv zeta in E.
  destruct o as [sid a | sid data | sid data | sid | sid | sid]; cbv beta iota in E.
  - rewrite E. apply (amo_sub (rooms st)); [| exact A]. intros r Gr Nr M.
    rewrite is_member_add in M.
    destruct (String.eqb_spec r sid) as [-> | _]; destruct (String.eqb_spec s sid) as [-> | _];
      simpl in M; try (exfalso; congruence); exact M.
  - destruct E as [-> | [gs ->]]; [exact A |].
    destruct (String.eqb_spec s sid) as [-> | Ns].
    + intros r1 r2 G1 G2 N1 N2 M1 M2.
      rewrite (leave_join_own _ _ _ _ N G1 N1) in M1.
      rewrite (leave_join_own _ _ _ _ N G2 N2) in M2.
      apply String.eqb_eq in M1, M2. congruence.
    + apply (amo_sub (rooms st)); [| exact A]. intros r Gr _ M.
      rewrite is_member_leave_join in M by exact N.
      apply String.eqb_neq in Ns. rewrite Ns in M. rewrite !andb_false_r in M. exact M.
  - destruct E as [-> | [gs ->]]; [exact A |].
    apply (amo_sub (rooms st)); [| exact A]. intros r Gr _ M.
    rewrite is_member_del in M by exact N. apply andb_true_iff in M as [_ M]. exact M.
  - rewrite E. apply (amo_sub (rooms st)); [| exact A]. intros r Gr _ M.
    rewrite is_member_add in M. destruct (String.eqb_spec r "prescription") as [-> | _]; [discriminate Gr |].
    exact M.
  - rewrite E. apply (amo_sub (rooms st)); [| exact A]. intros r Gr _ M.
    rewrite is_member_del in M by exact N. apply andb_true_iff in M as [_ M]. exact M.
  - rewrite E. apply (amo_sub (rooms st)); [| exact A]. intros r Gr _ M.
    rewrite (proj2 (is_member_fold_del (fun _ => true) sid r s _ _ N)) in M.
    apply andb_true_iff in M as [_ M]. exact M.
Qed.

Lemma exec_ops_amo (now : string) (ops : list op) (st : state) :
  NoDup (map fst (rooms st)) ->
  (forall s, at_most_one_other_group (rooms st) s) ->
  NoDup (map fst (rooms (exec_ops now ops st))) /\
  forall s, at_most_one_other_group (rooms (exec_ops now ops st)) s.
Proof.
  revert st; induction ops as [| o ops IH]; intros st N A; [simpl; auto |].
  cbn [exec_ops]. apply IH.
  - apply (step_nodup now o st N).
  - intro s. apply (step_amo now o st s N), A.
Qed.

(** C3 (as stated, refuted): a socket whose id starts with [group_]
    (socket.io ids are random base64url strings of 20 characters, and [_] is
    one of those characters) sits in the room named by its id; after joining
    group 1 it is a member of two rooms whose names start with [group_]. *)
Lemma group_prefixed_socket_id :
  let sid := "group_abcdefghijklmn" in
  let st := exec_ops "t" [OpConnect sid "ip"; OpJoinGroup sid (Some (gid 1))] empty_state in
  is_member (rooms st) sid sid = true /\ is_member (rooms st) "group_1" sid = true /\
  ~ at_most_one_group (rooms st) sid.
Proof.
  intros sid st. split; [reflexivity | split; [reflexivity |]].
  intro A. specialize (A sid "group_1" eq_refl eq_refl eq_refl eq_refl). discriminate A.
Qed.

(** C3 (amended): for every connection and every sequence of operations
    (connect, join-group, leave-group, join/leave-prescription, disconnect),
    the connection is a member of at most one room named [group_...] apart
    from the room named by its own socket id, provided the adapter maps each
    room once (as a JS Map does).  A successful join of group B leaves the
    socket in [group_B] and in no other group room but its own id room,
    whatever groups it was in before; and a join-group or a leave-group,
    successful or not, never changes its membership of the prescription
    room. *)
Theorem group_membership_invariant (now : string) :
  (forall ops st,
     NoDup (map fst (rooms st)) ->
     (forall s, at_most_one_other_group (rooms st) s) ->
     forall s, at_most_one_other_group (rooms (exec_ops now ops st)) s) /\
  (forall sid d gs st,
     NoDup (map fst (rooms st)) ->
     d <> JNull -> truthy (get_prop d "groupId") = true ->
     tostr_u (get_prop d "groupId") = Some gs -> tostr_u (get_prop d "groupName") <> None ->
     forall r, starts_with "group_" r = true -> r <> sid ->
       is_member (rooms (st_of (handleJoinGroup sid (Some d) now st))) r sid =
       String.eqb r ("group_" ++ gs)) /\
  (forall sid data st,
     NoDup (map fst (rooms st)) ->
     is_member (rooms (st_of (handleJoinGroup sid data now st))) "prescription" sid =
       is_member (rooms st) "prescription" sid /\
     is_member (rooms (st_of (handleLeaveGroup sid data now st))) "prescription" sid =
       is_member (rooms st) "prescription" sid).
Proof.
  split; [| split].
  - intros ops st N A. exact (proj2 (exec_ops_amo now ops st N A)).
  - intros sid d gs st N Hn Ti Si Sn r Gr Nr.
    rewrite (handleJoinGroup_ok sid d now gs st Hn Ti Si Sn). cbn [st_of fst rooms].
    apply leave_join_own; assumption.
  - intros sid data st N.
    change (starts_with "group_" "prescription") with false. split.
    + destruct (handleJoinGroup_rooms sid data now st) as [-> | [gs ->]]; [reflexivity |].
      rewrite is_member_leave_join by exact N. rewrite group_not_prescription.
      change (starts_with "group_" "prescription") with false.
      rewrite andb_false_r. reflexivity.
    + destruct (handleLeaveGroup_rooms sid data now st) as [-> | [gs ->]]; [reflexivity |].
      rewrite is_member_del by exact N. rewrite group_not_prescription. reflexivity.
Qed.

Lemma group_membership_invariant_witness :
  let s := "group_abcdefghijklmn" in
  let ops := [OpConnect s "ip"; OpJoinGroup s (Some (gid 1)); OpJoinPrescription s;
              OpJoinGroup s (Some (gid 2)); OpLeavePrescription s] in
  is_member (rooms (exec_ops "t" ops empty_state)) "group_2" s = true /\
  at_most_one_other_group (rooms (exec_ops "t" ops empty_state)) s.
Proof.
  intros s ops. split; [reflexivity |].
  apply (proj1 (group_membership_invariant "t") ops empty_state).
  - constructor.
  - intros s' r1 r2 _ _ _ _ M. discriminate M.
Defined.

(** ** C4: join-group validation *)

(** C4 (as stated, refuted): a join-group request whose groupId is present
    but is the number 0 does not proceed: the handler answers with the
    "Group ID is required" error only, and nothing changes. *)
Lemma join_group_zero_rejected :
  let st := mkState [("a", ["a"])] [("a", mkConn "a" "t" "ip")] [] in
  handleJoinGroup "a" (Some (JObj [("groupId", JNum 0 0); ("groupName", JStr "/d/0")])) "t" st =
    (st, [Send (ToSocket "a") (JStr "error") [JObj [("message", JStr "Group ID is required")]]], Ok tt).
Proof. reflexivity. Qed.

(** C4 (amended): a join-group request whose groupId is absent or falsy
    (undefined, null, false, 0, the empty string) is answered with one
    "Group ID is required" error to the requesting connection and changes
    nothing; a request without a data object is answered with one "Failed
    to join group" error to it and changes nothing; a request whose groupId
    is truthy (and, like groupName, convertible to a string) joins room
    [group_<groupId>] and emits exactly one joined-group confirmation, to the
    requesting connection only. *)
Theorem join_group_validation (sid now : string) (st : state) :
  (forall data, data = None \/ data = Some JNull ->
     run (handleJoinGroup sid data now) st =
       (st, [Send (ToSocket sid) (JStr "error") [JObj [("message", JStr "Failed to join group")]]], Ok tt)) /\
  (forall d, d <> JNull -> truthy (get_prop d "groupId") = false ->
     run (handleJoinGroup sid (Some d) now) st =
       (st, [Send (ToSocket sid) (JStr "error") [JObj [("message", JStr "Group ID is required")]]], Ok tt)) /\
  (forall d gs, d <> JNull -> truthy (get_prop d "groupId") = true ->
     tostr_u (get_prop d "groupId") = Some gs -> tostr_u (get_prop d "groupName") <> None ->
     exists st',
       run (handleJoinGroup sid (Some d) now) st =
         (st', [Send (ToSocket sid) (JStr "joined-group") [joined_payload d gs now]], Ok tt) /\
       is_member (rooms st') ("group_" ++ gs) sid = true).
Proof.
  split; [| split].
  - intros data H. apply handleJoinGroup_nodata, H.
  - intros d Hn Ti. apply handleJoinGroup_missing; assumption.
  - intros d gs Hn Ti Si Sn. unfold run. rewrite (handleJoinGroup_ok sid d now gs st Hn Ti Si Sn).
    eexists. split; [reflexivity |]. cbn [rooms].
    rewrite is_member_add, !String.eqb_refl. reflexivity.
Qed.

(** ** C2: permalink lifecycle *)

(** C2 (as stated, refuted): after a join-group without a groupName, room
    [group_1] has a member but group 1 has no permalink.  Besides, a
    permalink outlives its room: after [a] joins group 2 with a name and
    disconnects, [group_2] no longer exists (socket.io leaves all rooms
    before the disconnect handler runs, so cleanupEmptyGroups finds no empty
    room) and the permalink of group 2 is still stored. *)
Lemma falsy_tostr (v : option json) : truthy v = false -> tostr_u v <> None.
Proof. destruct v as [[| b | m e | s | l | kvs] |]; cbn [truthy tostr_u tostr]; discriminate. Qed.

Lemma permalink_without_name :
  let st1 := exec_ops "t" [OpConnect "a" "ip"; OpJoinGroup "a" (Some (gid 1))] empty_state in
  let st2 := exec_ops "t" [OpConnect "a" "ip"; OpJoinGroup "a" (Some (gid_named 2 "/d/2"));
                           OpDisconnect "a"] empty_state in
  (is_member (rooms st1) "group_1" "a" = true /\ map_get "1" (perma st1) = None) /\
  (room_count (rooms st2) "group_2" = 0 /\ map_get "2" (perma st2) = Some (JStr "/d/2")).
Proof. split; split; reflexivity. Qed.

(** C2 (amended): a join-group that names the group (truthy groupName)
    stores the permalink under [String(groupId)] and leaves the connection in
    the group's room; a join-group without a name stores no permalink (and
    removes none); a leave-group after which the group's room has no member
    removes the group's permalink, and one after which it still has members
    keeps every permalink. *)
Theorem permalink_lifecycle (sid now : string) (st : state) :
  (forall d gs n,
     d <> JNull -> truthy (get_prop d "groupId") = true -> tostr_u (get_prop d "groupId") = Some gs ->
     get_prop d "groupName" = Some n -> truthy (Some n) = true -> tostr_u (Some n) <> None ->
     let st' := st_of (run (handleJoinGroup sid (Some d) now) st) in
     map_get gs (perma st') = Some n /\ is_member (rooms st') ("group_" ++ gs) sid = true) /\
  (forall d gs,
     d <> JNull -> truthy (get_prop d "groupId") = true -> tostr_u (get_prop d "groupId") = Some gs ->
     truthy (get_prop d "groupName") = false ->
     let st' := st_of (run (handleJoinGroup sid (Some d) now) st) in
     perma st' = perma st /\ is_member (rooms st') ("group_" ++ gs) sid = true) /\
  (forall d gs,
     d <> JNull -> tostr_u (get_prop d "groupId") = Some gs -> NoDup (map fst (perma st)) ->
     let st' := st_of (run (handleLeaveGroup sid (Some d) now) st) in
     (room_count (rooms st') ("group_" ++ gs) = 0 -> map_get gs (perma st') = None) /\
     (room_count (rooms st') ("group_" ++ gs) <> 0 -> perma st' = perma st)).
Proof.
  split; [| split].
  - intros d gs n Hn Ti Si En Tn Sn st'. unfold st', run.
    assert (Sn' : tostr_u (get_prop d "groupName") <> None) by (rewrite En; exact Sn).
    rewrite (handleJoinGroup_ok sid d now gs st Hn Ti Si Sn'). cbn [st_of fst perma rooms].
    rewrite En, Tn. split.
    + rewrite map_get_set, String.eqb_refl. reflexivity.
    + rewrite is_member_add, !String.eqb_refl. reflexivity.
  - intros d gs Hn Ti Si Tn st'. unfold st', run.
    assert (Sn' : tostr_u (get_prop d "groupName") <> None) by (apply falsy_tostr, Tn).
    rewrite (handleJoinGroup_ok sid d now gs st Hn Ti Si Sn'). cbn [st_of fst perma rooms].
    rewrite Tn. split; [reflexivity |].
    rewrite is_member_add, !String.eqb_refl. reflexivity.
  - intros d gs Hn Si N st'. unfold st', run.
    rewrite (handleLeaveGroup_ok sid d now gs st Hn Si). cbn [st_of fst perma rooms].
    split.
    + intros ->. apply map_get_delete_same, N.
    + intros H. apply Nat.eqb_neq in H. rewrite H. reflexivity.
Qed.

(** ** C5: the display snapshot *)

Lemma insert_perm (x : display) (l : list display) : Permutation (insert_display x l) (x :: l).
Proof.
  induction l as [| y r IH]; simpl; [reflexivity |].
  destruct (cmp_positive y x); [reflexivity |].
  rewrite IH. apply perm_swap.
Qed.

Lemma fold_insert_perm (l acc : list display) :
  Permutation (fold_left (fun acc x => insert_display x acc) l acc) (l ++ acc).
Proof.
  revert acc; induction l as [| x l IH]; intro acc; simpl; [reflexivity |].
  rewrite IH, insert_perm. symmetry. apply Permutation_middle.
Qed.

Lemma sort_displays_perm (l : list display) : Permutation (sort_displays l) l.
Proof. unfold sort_displays. rewrite fold_insert_perm, app_nil_r. reflexivity. Qed.

Definition numeric (d : display) : Prop := groupNumber d <> None.

Lemma insert_head (x : display) (l : list display) :
  insert_display x l = x :: l \/
  exists z r, l = z :: r /\ insert_display x l = z :: insert_display x r.
Proof.
  destruct l as [| z r]; simpl; [left; reflexivity |].
  destruct (cmp_positive z x); [left; reflexivity | right; exists z, r; split; reflexivity].
Qed.

Lemma key_le_of_not_gt (a b : display) :
  numeric a -> numeric b -> cmp_positive a b = false -> key_le a b = true.
Proof.
  unfold numeric, cmp_positive, key_le.
  destruct (groupNumber a) as [x|], (groupNumber b) as [y|]; try congruence.
  intros _ _ H. apply Z.ltb_ge in H. apply Z.leb_le. lia.
Qed.

Lemma key_le_of_gt (a b : display) : cmp_positive a b = true -> key_le b a = true.
Proof.
  unfold cmp_positive, key_le.
  destruct (groupNumber a) as [x|], (groupNumber b) as [y|]; try discriminate.
  intros H. apply Z.ltb_lt in H. apply Z.leb_le. lia.
Qed.

Lemma insert_sorted (x : display) (l : list display) :
  numeric x -> Forall numeric l ->
  Sorted (fun a b => key_le a b = true) l ->
  Sorted (fun a b => key_le a b = true) (insert_display x l).
Proof.
  intros Nx. induction l as [| y r IH]; intros Nl S; simpl.
  - constructor; constructor.
  - inversion Nl as [| ? ? Ny Nr]; subst. inversion S as [| ? ? Sr Hr]; subst.
    destruct (cmp_positive y x) eqn:C.
    + constructor; [exact S | constructor; apply key_le_of_gt; exact C].
    + constructor; [apply IH; assumption |].
      destruct (insert_head x r) as [-> | (z & r' & -> & ->)].
      * constructor. apply key_le_of_not_gt; assumption.
      * inversion Hr; subst. constructor. assumption.
Qed.

Lemma fold_insert_sorted (l acc : list display) :
  Forall numeric l -> Forall numeric acc ->
  Sorted (fun a b => key_le a b = true) acc ->
  Sorted (fun a b => key_le a b = true) (fold_left (fun acc x => insert_display x acc) l acc).
Proof.
  revert acc; induction l as [| x l IH]; intros acc Nl Na S; simpl; [exact S |].
  inversion Nl as [| ? ? Nx Nl']; subst. apply IH; [exact Nl' | |].
  - apply (Permutation_Forall (Permutation_sym (insert_perm x acc))). constructor; assumption.
  - apply insert_sorted; assumption.
Qed.

Lemma numeric_keys_Forall (l : list display) : numeric_keys l = true <-> Forall numeric l.
Proof.
  unfold numeric_keys, numeric. rewrite forallb_forall, Forall_forall.
  split; intros H d Hd; specialize (H d Hd); destruct (groupNumber d); congruence.
Qed.

Lemma getActiveDisplays_admissible (st : state) (now : string) :
  active_displays st now (getActiveDisplays st now).
Proof.
  unfold active_displays, sort_admissible, getActiveDisplays. split; [| reflexivity].
  symmetry. apply sort_displays_perm.
Qed.

Lemma starts_with_split (p s : string) : starts_with p s = true -> exists r, s = (p ++ r)%string.
Proof.
  revert s; induction p as [| c p IH]; intros s H; [exists s; reflexivity |].
  destruct s as [| d s]; [discriminate H |]. cbn [starts_with] in H.
  apply andb_true_iff in H as [Hc H]. apply Ascii.eqb_eq in Hc. subst d.
  destruct (IH s H) as [r ->]. exists r. reflexivity.
Qed.

Lemma starts_with_self (p r : string) : starts_with p (p ++ r) = true.
Proof. induction p as [| c p IH]; [destruct r; reflexivity |]. cbn. rewrite Ascii.eqb_refl. exact IH. Qed.

Lemma substring_all (s : string) (m : nat) : String.length s <= m -> substring 0 m s = s.
Proof.
  revert m; induction s as [| c s IH]; intros m H; [destruct m; reflexivity |].
  destruct m as [| m]; simpl in H; [lia |]. simpl. rewrite IH by lia. reflexivity.
Qed.

Lemma replace_first_eq (pat rep s : string) :
  replace_first pat rep s =
  if starts_with pat s then (rep ++ substring (String.length pat) (String.length s) s)%string
  else match s with
       | EmptyString => EmptyString
       | String c s' => String c (replace_first pat rep s')
       end.
Proof. destruct s; reflexivity. Qed.

Lemma replace_group_prefix (g : string) : replace_first "group_" "" ("group_" ++ g) = g.
Proof.
  rewrite replace_first_eq, starts_with_self. cbn [append String.length substring].
  apply substring_all. simpl. lia.
Qed.

Lemma active_rooms_map (st : state) (now : string) (names : list string) :
  map roomName (filter isActive (map (display_of st now) names)) =
  filter (fun r => Nat.ltb 0 (room_count (rooms st) r)) names.
Proof.
  induction names as [| r names IH]; simpl; [reflexivity |].
  destruct (Nat.ltb 0 (room_count (rooms st) r)); simpl; rewrite IH; reflexivity.
Qed.

(** C5 (as stated, refuted): with rooms [group_3], [group_abc] (a
    non-numeric group id) and [group_1], each with a member, the comparator
    [a.groupNumber - b.groupNumber] is NaN against group abc, so the order
    is implementation-defined, and the unsorted order 3, abc, 1 is an
    admissible result (it is the order V8's TimSort keeps, the three entries
    forming a single run when every NaN comparison counts as equal). *)
Lemma snapshot_nan_unsorted :
  let st := exec_ops "t" [OpConnect "a" "ip"; OpConnect "b" "ip"; OpConnect "c" "ip";
                          OpJoinGroup "a" (Some (gid 3));
                          OpJoinGroup "b" (Some (JObj [("groupId", JStr "abc")]));
                          OpJoinGroup "c" (Some (gid 1))] empty_state in
  let ds := filter isActive (map (display_of st "t") (group_room_names st)) in
  active_displays st "t" ds /\ map groupNumber ds = [Some 3%Z; None; Some 1%Z].
Proof.
  intros st ds. split; [| reflexivity].
  split; [reflexivity | intro H; discriminate H].
Qed.

(** C5 (amended): every list getActiveDisplays may return holds exactly the
    group rooms with at least one member (as a permutation of the room
    names); each entry, for room [group_g], carries the room's member count,
    the connection metadata of each member, [parseInt(g)] as group number,
    and as permalink the stored label, or [/display/group/g] when none is
    stored; and when every group number is a number (no NaN), the list is
    sorted ascending by group number. *)
Theorem snapshot_spec (st : state) (now : string) (ds : list display) :
  active_displays st now ds ->
  Permutation (map roomName ds)
              (filter (fun r => Nat.ltb 0 (room_count (rooms st) r)) (group_room_names st)) /\
  (forall e, In e ds -> exists g,
     In ("group_" ++ g)%string (group_room_names st) /\ roomName e = ("group_" ++ g)%string /\
     clientCount e = room_count (rooms st) ("group_" ++ g)%string /\ 0 < clientCount e /\
     clients e = client_details st (match map_get ("group_" ++ g)%string (rooms st) with
                                    | Some ms => ms | None => [] end) /\
     groupNumber e = parseInt g /\
     (map_get g (perma st) = None -> permalink e = JStr ("/display/group/" ++ g)%string) /\
     (forall p, map_get g (perma st) = Some p -> truthy (Some p) = true -> permalink e = p)) /\
  ((forall e, In e ds -> groupNumber e <> None) -> Sorted (fun a b => key_le a b = true) ds).
Proof.
  intros [P Hs]. split; [| split].
  - rewrite <- (active_rooms_map st now). apply Permutation_map. symmetry. exact P.
  - intros e He. apply (Permutation_in _ (Permutation_sym P)) in He.
    apply filter_In in He as [He A]. apply in_map_iff in He as (r & <- & Hr).
    pose proof Hr as Hr'. unfold group_room_names in Hr'. apply filter_In in Hr' as [_ G].
    destruct (starts_with_split _ _ G) as [g ->]. exists g.
    unfold display_of in *. rewrite replace_group_prefix in *. cbn [roomName clientCount clients
      groupNumber permalink isActive] in *.
    apply Nat.ltb_lt in A.
    split; [exact Hr |]. split; [reflexivity |]. split; [reflexivity |]. split; [exact A |].
    split; [reflexivity |]. split; [reflexivity |]. split.
    + intros ->. reflexivity.
    + intros p -> T. rewrite T. reflexivity.
  - intros Hn. assert (N : numeric_keys (filter isActive (map (display_of st now) (group_room_names st))) = true).
    { apply numeric_keys_Forall, Forall_forall. intros e He. apply Hn.
      exact (Permutation_in _ P He). }
    rewrite (Hs N). unfold sort_displays. apply fold_insert_sorted; [| constructor | constructor].
    apply numeric_keys_Forall, N.
Qed.

Lemma snapshot_spec_witness :
  let st := exec_ops "t" [OpConnect "a" "ip"; OpConnect "b" "ip";
                          OpJoinGroup "a" (Some (gid_named 3 "/d/3"));
                          OpJoinGroup "b" (Some (gid 1))] empty_state in
  active_displays st "t" (getActiveDisplays st "t") /\
  Sorted (fun a b => key_le a b = true) (getActiveDisplays st "t").
Proof.
  intros st. split; [apply getActiveDisplays_admissible |].
  apply (proj2 (proj2 (snapshot_spec st "t" (getActiveDisplays st "t")
                          (getActiveDisplays_admissible st "t")))).
  intros e He. vm_compute in He. destruct He as [<- | [<- | []]]; discriminate.
Defined.

(** ** C9: the legacy catch-all re-broadcast *)




(** ** Further properties of the servers *)

Open Scope string_scope.

Lemma decode_envelope_uniform (message : string) :
  exists r : result (option (json * json)),
    forall S (st : S), decode_envelope message st = (st, [], r).
Proof.
  exists (res_of (decode_envelope (S := unit) message tt)). intros S st.
  unfold decode_envelope. destruct (json_parse message) as [d|]; [| reflexivity].
  destruct d as [| b | m ex | s0 | l | kvs] eqn:Hd; [reflexivity | rewrite <- Hd ..];
  cbv beta iota zeta;
  (destruct (truthy (get_prop d "event")), (truthy (get_prop d "data"));
   cbn [negb]; [ destruct (get_prop d "event"), (get_prop d "data") | .. ]; reflexivity).
Qed.

Lemma eqb_colon_free (c e r : string) :
  forallb (fun ch => negb (Ascii.eqb ch ":"%char)) (list_ascii_of_string r) = true ->
  String.eqb (c ++ ":" ++ e) r = false.
Proof.
  change (":" ++ e) with (String ":" e).
  revert r; induction c as [| a c IH]; intros [| b r] H; try reflexivity.
  - cbn [list_ascii_of_string forallb] in H. apply andb_true_iff in H as [H _].
    cbn [append String.eqb]. rewrite Ascii.eqb_sym. destruct (Ascii.eqb b ":"); [discriminate | reflexivity].
  - cbn [list_ascii_of_string forallb] in H. apply andb_true_iff in H as [_ H].
    cbn [append String.eqb]. rewrite (IH r H). apply andb_false_r.
Qed.

Lemma colon_not_reserved (c e : string) : reserved_event (JStr (c ++ ":" ++ e)) = false.
Proof.
  unfold reserved_event. cbn [existsb].
  rewrite !eqb_colon_free by reflexivity. reflexivity.
Qed.

Lemma general_outcome (channel : string) (e x : json) (st : state) :
  starts_with "antrian." channel = false ->
  try_catch (handleGeneralMessage channel e x) (fun _ => ret tt) st =
  (st, match e with
       | JStr ev =>
           if starts_with "prescription." ev then
             BroadcastToPrescriptionRoom channel ev x ::
               (if Nat.eqb (room_count (rooms st) "prescription") 0 then []
                else [Send (ToRoom "prescription") (JStr (channel ++ ":" ++ ev)) [x]])
           else [Send ToAll (JStr (channel ++ ":" ++ ev)) [x]]
       | _ => []
       end, Ok tt).
Proof.
  intros Ha. destruct e as [| b | m ex | ev | l | kvs]; try reflexivity.
  mred. rewrite colon_not_reserved. destruct (starts_with "prescription." ev).
  - destruct (Nat.eqb (room_count (rooms st) "prescription") 0); reflexivity.
  - rewrite Ha. reflexivity.
Qed.

(** X10: on a non-antrian channel a valid envelope is handled by handleGeneralMessage: prescription events go to the prescription room, other string events are re-emitted to all as channel:event, and the state is unchanged. *)
Theorem general_channel_outcome (message channel : string) (d e x : json) (st : state) :
  starts_with "antrian." channel = false ->
  json_parse message = Some d -> get_prop d "event" = Some e -> get_prop d "data" = Some x ->
  truthy (Some e) = true -> truthy (Some x) = true ->
  run (on_bus_message message channel) st =
  (st, match e with
       | JStr ev =>
           if starts_with "prescription." ev then
             BroadcastToPrescriptionRoom channel ev x ::
               (if Nat.eqb (room_count (rooms st) "prescription") 0 then []
                else [Send (ToRoom "prescription") (JStr (channel ++ ":" ++ ev)) [x]])
           else [Send ToAll (JStr (channel ++ ":" ++ ev)) [x]]
       | _ => []
       end, Ok tt).
Proof.
  intros Ha Hp He Hx Te Tx.
  assert (Hd : decode_envelope message st = (st, [], Ok (Some (e, x)))) by (eapply decode_envelope_ok; eauto).
  unfold run, on_bus_message, matches_antrian_pattern. rewrite Ha.
  unfold bind at 1, ret at 1. rewrite (processMessage_decoded _ _ _ _ _ _ Hd).
  rewrite (general_outcome _ _ _ _ Ha). reflexivity.
Qed.

Lemma general_channel_outcome_witness :
  let st := mkState [] [("a", mkConn "a" "t" "ip")] [] in
  let d := JObj [("event", JStr "order.created"); ("data", JObj [("id", JNum 5 0)])] in
  starts_with "antrian." "orders" = false /\
  json_parse (dq "{'event':'order.created','data':{'id':5}}") = Some d /\
  run (on_bus_message (dq "{'event':'order.created','data':{'id':5}}") "orders") st =
  (st, [Send ToAll (JStr "orders:order.created") [JObj [("id", JNum 5 0)]]], Ok tt).
Proof.
  intros st d. split; [reflexivity | split; [reflexivity |]].
  exact (general_channel_outcome (dq "{'event':'order.created','data':{'id':5}}") "orders" d (JStr "order.created") (JObj [("id", JNum 5 0)]) st
           eq_refl eq_refl eq_refl eq_refl eq_refl eq_refl).
Defined.

Lemma processMessage_nothing (message channel : string) (b : bool) (st : state) r :
  decode_envelope message st = (st, [], r) -> (forall e x, r <> Ok (Some (e, x))) ->
  processMessage message channel b st = (st, [], Ok tt).
Proof.
  intros H N. unfold processMessage, processMessage_body, try_catch, bind. rewrite H.
  destruct r as [[[e x]|]|err]; [exfalso; exact (N e x eq_refl) | reflexivity | reflexivity].
Qed.

(** X11: a message on an antrian channel never changes the state, never fails, and only reaches the prescription room or the group room named by the channel. *)
Theorem antrian_channel_never_global (message channel : string) (st : state) :
  starts_with "antrian." channel = true ->
  st_of (run (on_bus_message message channel) st) = st /\
  res_of (run (on_bus_message message channel) st) = Ok tt /\
  (forall t n a, In (Send t n a) (out_of (run (on_bus_message message channel) st)) ->
     t = ToRoom "prescription" \/
     exists g, extractGroupIdFromChannel channel = Some g /\ t = ToRoom ("group_" ++ g)).
Proof.
  intro Ha. destruct (decode_envelope_uniform message) as [r Hr].
  unfold run, on_bus_message, matches_antrian_pattern. rewrite Ha.
  unfold bind. cbv beta iota.
  destruct r as [[[e x]|]|err];
    [| rewrite !(processMessage_nothing _ _ _ _ _ (Hr state st)) by discriminate;
       split; [reflexivity | split; [reflexivity | intros ? ? ? []]] ..].
  assert (P : forall st', processMessage message channel false st' =
                          try_catch (handleGeneralMessage channel e x) (fun _ => ret tt) st')
    by (intro st'; exact (processMessage_decoded message channel false st' e x (Hr state st'))).
  assert (PP : forall t n a,
    In (Send t n a) (match e with
       | JStr ev =>
           if starts_with "prescription." ev then
             BroadcastToPrescriptionRoom channel ev x ::
               (if Nat.eqb (room_count (rooms st) "prescription") 0 then []
                else [Send (ToRoom "prescription") (JStr (channel ++ ":" ++ ev)) [x]])
           else []
       | _ => []
       end) -> t = ToRoom "prescription").
  { intros t n a Hin. destruct e; try destruct Hin.
    destruct (starts_with "prescription." s); [| destruct Hin].
    destruct Hin as [Hin | Hin]; [discriminate |].
    destruct (Nat.eqb _ 0); [destruct Hin |]. destruct Hin as [Hin | []].
    injection Hin as <- _ _. reflexivity. }
  destruct (extractGroupIdFromChannel channel) as [g|] eqn:Hg.
  - rewrite (processMessage_group _ _ _ _ _ _ (Hr state st) Hg).
    destruct (broadcastToClients_outcome channel e x g st) as (G & EG & GG & _). rewrite EG.
    rewrite P, (handleGeneral_antrian _ _ _ _ Ha). unfold st_of, res_of, out_of. cbn -[room_count].
    split; [reflexivity | split; [reflexivity |]].
    intros t n a [Hin | Hin]; [discriminate |]. apply in_app_or in Hin as [Hin | Hin].
    + destruct GG as [-> | ->]; [destruct Hin |]. destruct Hin as [Hin | []].
      injection Hin as <- _ _. right. exists g. split; reflexivity.
    + left. exact (PP t n a Hin).
  - rewrite (processMessage_decoded message channel true st e x (Hr state st)), Hg.
    unfold try_catch, ret. cbv beta iota. rewrite P, (handleGeneral_antrian _ _ _ _ Ha).
    unfold st_of, res_of, out_of. cbn -[room_count].
    split; [reflexivity | split; [reflexivity |]].
    intros t n a Hin. left. exact (PP t n a Hin).
Qed.

Lemma legacy_bc_sends (channel : string) (e x : json) (g : string) (st : state) (lst : Legacy.lstate) :
  Legacy.lrooms lst = rooms st ->
  exists O,
    try_catch (broadcastToClients channel e x g) (fun _ => ret tt) st = (st, O, Ok tt) /\
    try_catch (Legacy.broadcastToClients channel e x g) (fun _ => ret tt) lst =
      (lst, filter is_send O, Ok tt).
Proof.
  intro H. unfold Legacy.broadcastToClients. mred. rewrite H. cbv delta [tostr_u] beta iota.
  destruct (Nat.eqb _ 0); [eexists; split; reflexivity |].
  destruct (tostr e); [| eexists; split; reflexivity].
  destruct (reserved_event e); eexists; split; reflexivity.
Qed.

Lemma legacy_general_sends (channel : string) (e x : json) (st : state) (lst : Legacy.lstate) :
  Legacy.lrooms lst = rooms st ->
  exists O,
    try_catch (handleGeneralMessage channel e x) (fun _ => ret tt) st = (st, O, Ok tt) /\
    try_catch (match e with
               | JStr ev =>
                   if starts_with "prescription." ev then Legacy.broadcastToPrescriptionRoom channel ev x
                   else if negb (starts_with "antrian." channel) then
                     sio_emit ToAll (JStr (channel ++ ":" ++ ev)) [x]
                   else ret tt
               | _ => throw TypeError
               end) (fun _ => ret tt) lst = (lst, filter is_send O, Ok tt).
Proof.
  intro H. destruct e as [| b | m ex | ev | l | kvs]; try (eexists; split; reflexivity).
  unfold Legacy.broadcastToPrescriptionRoom. mred.
  destruct (starts_with "prescription." ev); cbv beta iota.
  - rewrite H. destruct (Nat.eqb _ 0); [eexists; split; reflexivity |].
    rewrite colon_not_reserved. eexists; split; reflexivity.
  - destruct (negb (starts_with "antrian." channel)); [| eexists; split; reflexivity].
    rewrite colon_not_reserved. eexists; split; reflexivity.
Qed.

Lemma legacy_antrian_sends (message channel : string) (st : state) (lst : Legacy.lstate) :
  Legacy.lrooms lst = rooms st ->
  exists O,
    processMessage message channel true st = (st, O, Ok tt) /\
    Legacy.on_antrian_message message channel lst = (lst, filter is_send O, Ok tt).
Proof.
  intro H. destruct (decode_envelope_uniform message) as [r Hr].
  unfold processMessage, processMessage_body, Legacy.on_antrian_message.
  unfold try_catch at 1 2, bind at 1 2. rewrite (Hr state st), (Hr Legacy.lstate lst).
  destruct r as [[[e x]|]|err]; [| exists []; split; reflexivity ..].
  cbv beta iota.
  destruct (extractGroupIdFromChannel channel) as [g|] eqn:Hg; [| exists []; split; reflexivity].
  rewrite (extract_truthy _ _ Hg). cbn [negb].
  destruct (legacy_bc_sends channel e x g st lst H) as (O & E1 & E2).
  exists O. unfold try_catch in E1, E2.
  destruct (broadcastToClients channel e x g st) as [[s1 o1] [[]|err]];
  destruct (Legacy.broadcastToClients channel e x g lst) as [[s2 o2] [[]|err']];
    simpl in *; split; congruence.
Qed.

Lemma try_catch_bind_pure {S A} (m : MS S A) (k : A -> MS S unit) (h : js_error -> MS S unit) (st : S) (a : A) :
  m st = (st, [], Ok a) -> try_catch (bind m k) h st = try_catch (k a) h st.
Proof.
  intro H. unfold try_catch at 1. rewrite (bind_pure_eq _ _ _ _ H). reflexivity.
Qed.

Lemma legacy_all_sends (message channel : string) (st : state) (lst : Legacy.lstate) :
  Legacy.lrooms lst = rooms st ->
  exists O,
    processMessage message channel false st = (st, O, Ok tt) /\
    Legacy.on_all_message message channel lst = (lst, filter is_send O, Ok tt).
Proof.
  intro H. destruct (decode_envelope_uniform message) as [r Hr].
  destruct r as [[[e x]|]|err];
    [| exists []; split;
       [ apply (processMessage_nothing _ _ _ _ _ (Hr state st)); discriminate
       | unfold Legacy.on_all_message, try_catch, bind; rewrite (Hr Legacy.lstate lst); reflexivity ] ..].
  rewrite (processMessage_decoded message channel false st e x (Hr state st)).
  destruct (legacy_general_sends channel e x st lst H) as (O & E1 & E2).
  exists O. split; [exact E1 |].
  unfold Legacy.on_all_message. rewrite (try_catch_bind_pure _ _ _ _ _ (Hr Legacy.lstate lst)).
  exact E2.
Qed.

(** X13: the legacy bus listeners emit exactly the Send actions of the modular ones, and neither changes the state. *)
Theorem legacy_bus_same_sends (message channel : string) (st : state) (lst : Legacy.lstate) :
  Legacy.lrooms lst = rooms st ->
  st_of (run (on_bus_message message channel) st) = st /\
  st_of (run (Legacy.on_bus_message message channel) lst) = lst /\
  res_of (run (Legacy.on_bus_message message channel) lst) = Ok tt /\
  out_of (run (Legacy.on_bus_message message channel) lst) =
    filter is_send (out_of (run (on_bus_message message channel) st)).
Proof.
  intro H.
  destruct (legacy_all_sends message channel st lst H) as (O2 & A1 & A2).
  unfold run, on_bus_message, Legacy.on_bus_message, st_of, res_of, out_of, bind.
  destruct (matches_antrian_pattern channel).
  - destruct (legacy_antrian_sends message channel st lst H) as (O1 & B1 & B2).
    rewrite B1, B2. cbv beta iota. rewrite A1, A2. cbn. rewrite filter_app. auto.
  - unfold ret. cbv beta iota. rewrite A1, A2. cbn. auto.
Qed.

Lemma legacy_bus_same_sends_witness :
  let msg := dq "{'event':'queue.update','data':{'x':1}}" in
  let st := mkState [("group_3", ["s1"])] [("s1", mkConn "s1" "t" "ip")] [] in
  let lst := Legacy.mkLState [("group_3", ["s1"])] [("s1", Legacy.mkLConn "s1" "t" "t" "ip")] in
  Legacy.lrooms lst = rooms st /\
  out_of (run (Legacy.on_bus_message msg "antrian.group.3") lst) =
    filter is_send (out_of (run (on_bus_message msg "antrian.group.3") st)) /\
  out_of (run (Legacy.on_bus_message msg "antrian.group.3") lst) =
    [Send (ToRoom "group_3") (JStr "queue.update") [JObj [("x", JNum 1 0)]]].
Proof.
  intros msg st lst. split; [reflexivity | split].
  - exact (proj2 (proj2 (proj2 (legacy_bus_same_sends msg "antrian.group.3" st lst eq_refl)))).
  - reflexivity.
Defined.

Section EmitsOnly.
Context {S : Type} (ok : action -> Prop).

Lemma eo_ret {A} (x : A) : emits_only (S := S) ok (ret x).
Proof. intros st a []. Qed.

Lemma eo_throw {A} (e : js_error) : emits_only (S := S) (A := A) ok (throw e).
Proof. intros st a []. Qed.

Lemma eo_gets {A} (f : S -> A) : emits_only ok (gets f).
Proof. intros st a []. Qed.

Lemma eo_modify (f : S -> S) : emits_only ok (modify f).
Proof. intros st a []. Qed.

Lemma eo_act (b : action) : ok b -> emits_only (S := S) ok (act b).
Proof. intros H st a [<- | []]. exact H. Qed.

Lemma eo_bind {A B} (m : MS S A) (k : A -> MS S B) :
  emits_only ok m -> (forall x, emits_only ok (k x)) -> emits_only ok (bind m k).
Proof.
  intros Hm Hk st a. unfold bind, out_of. specialize (Hm st). unfold out_of in Hm.
  destruct (m st) as [[st1 o1] [x | e]]; simpl in *; [| exact (Hm a)].
  specialize (Hk x st1). unfold out_of in Hk.
  destruct (k x st1) as [[st2 o2] r]. simpl in *. intro Hin.
  apply in_app_or in Hin as [Hin | Hin]; auto.
Qed.

Lemma eo_try_catch (m : MS S unit) (h : js_error -> MS S unit) :
  emits_only ok m -> (forall e, emits_only ok (h e)) -> emits_only ok (try_catch m h).
Proof.
  intros Hm Hh st a. unfold try_catch, out_of. specialize (Hm st). unfold out_of in Hm.
  destruct (m st) as [[st1 o1] [x | e]] eqn:E; simpl in *; [exact (Hm a) |].
  specialize (Hh e st1). unfold out_of in Hh.
  destruct (h e st1) as [[st2 o2] r]. simpl in *. intro Hin.
  apply in_app_or in Hin as [Hin | Hin]; auto.
Qed.

Lemma eo_m_iter {A} (f : A -> MS S unit) (l : list A) :
  (forall x, emits_only ok (f x)) -> emits_only ok (m_iter f l).
Proof.
  intro Hf. induction l as [| x l IH]; [apply eo_ret |]. apply eo_bind; [apply Hf | intros _; exact IH].
Qed.

Lemma eo_to_s (v : option json) : emits_only (S := S) ok (to_s v).
Proof. unfold to_s. destruct (tostr_u v); [apply eo_ret | apply eo_throw]. Qed.

Lemma eo_sio_emit (t : target) (n : json) (args : list json) :
  ok (Send t n args) -> emits_only (S := S) ok (sio_emit t n args).
Proof. intro H. unfold sio_emit. destruct (reserved_event n); [apply eo_throw | apply eo_act, H]. Qed.

End EmitsOnly.

Ltac eo_solve :=
  repeat (cbv beta zeta;
    match goal with
    | |- emits_only _ (bind _ _) => apply eo_bind; [| intro]
    | |- emits_only _ (try_catch _ _) => apply eo_try_catch; [| intro]
    | |- emits_only _ (m_iter _ _) => apply eo_m_iter; intro
    | |- emits_only _ (ret _) => apply eo_ret
    | |- emits_only _ (throw _) => apply eo_throw
    | |- emits_only _ (gets _) => apply eo_gets
    | |- emits_only _ (modify _) => apply eo_modify
    | |- emits_only _ (to_s _) => apply eo_to_s
    | |- emits_only _ (sio_emit _ _ _) => apply eo_sio_emit
    | |- emits_only _ (if ?b then _ else _) => destruct b
    | |- emits_only _ (match ?x with _ => _ end) => destruct x
    end).

(** X12: every emission of a socket operation goes to that socket itself. *)
Lemma step_emits_own (now : string) (o : op) :
  emits_only (fun a => exists n args, a = Send (ToSocket (op_sid o)) n args) (step now o).
Proof.
  destruct o as [sid ad | sid data | sid data | sid | sid | sid]; cbn [step op_sid];
  unfold on_connect, handleJoinGroup, handleLeaveGroup, handleJoinPrescription, handleLeavePrescription,
    on_disconnect, cleanupEmptyGroups, emit_error, destructure, setGroupPermalink, removeGroupPermalink,
    leave_previous_groups, sock_join, sock_leave, getRoomClientCount, addConnection, removeConnection;
  eo_solve; eauto.
Qed.

Section Keeps.
Context {S : Type} (R : S -> S -> Prop) (Rrefl : forall s, R s s)
        (Rtrans : forall a b c, R a b -> R b c -> R a c).

Lemma kp_ret {A} (x : A) : keeps R (ret x).
Proof using Rrefl Rtrans. intro st. apply Rrefl. Qed.

Lemma kp_throw {A} (e : js_error) : keeps (A := A) R (throw e).
Proof using Rrefl Rtrans. intro st. apply Rrefl. Qed.

Lemma kp_gets {A} (f : S -> A) : keeps R (gets f).
Proof using Rrefl Rtrans. intro st. apply Rrefl. Qed.

Lemma kp_act (b : action) : keeps R (act b).
Proof using Rrefl Rtrans. intro st. apply Rrefl. Qed.

Lemma kp_modify (f : S -> S) : (forall s, R s (f s)) -> keeps R (modify f).
Proof using Rrefl Rtrans. intros H st. apply H. Qed.

Lemma kp_bind {A B} (m : MS S A) (k : A -> MS S B) :
  keeps R m -> (forall x, keeps R (k x)) -> keeps R (bind m k).
Proof using Rrefl Rtrans.
  intros Hm Hk st. unfold bind, st_of. specialize (Hm st). unfold st_of in Hm.
  destruct (m st) as [[st1 o1] [x | e]]; simpl in *; [| exact Hm].
  specialize (Hk x st1). unfold st_of in Hk.
  destruct (k x st1) as [[st2 o2] r]. simpl in *. eauto.
Qed.

Lemma kp_try_catch (m : MS S unit) (h : js_error -> MS S unit) :
  keeps R m -> (forall e, keeps R (h e)) -> keeps R (try_catch m h).
Proof using Rrefl Rtrans.
  intros Hm Hh st. unfold try_catch, st_of. specialize (Hm st). unfold st_of in Hm.
  destruct (m st) as [[st1 o1] [x | e]] eqn:E; simpl in *; [exact Hm |].
  specialize (Hh e st1). unfold st_of in Hh.
  destruct (h e st1) as [[st2 o2] r]. simpl in *. eauto.
Qed.

Lemma kp_m_iter {A} (f : A -> MS S unit) (l : list A) :
  (forall x, keeps R (f x)) -> keeps R (m_iter f l).
Proof using Rrefl Rtrans.
  intro Hf. induction l as [| x l IH]; [apply kp_ret |]. apply kp_bind; [apply Hf | intros _; exact IH].
Qed.

Lemma kp_to_s (v : option json) : keeps R (to_s v).
Proof using Rrefl Rtrans. unfold to_s. destruct (tostr_u v); [apply kp_ret | apply kp_throw]. Qed.

Lemma kp_sio_emit (t : target) (n : json) (args : list json) : keeps R (sio_emit t n args).
Proof using Rrefl Rtrans. unfold sio_emit. destruct (reserved_event n); [apply kp_throw | apply kp_act]. Qed.

End Keeps.

Ltac kp_solve :=
  repeat (cbv beta zeta;
    match goal with
    | |- keeps _ (bind _ _) => apply kp_bind; [eauto | eauto | | intro]
    | |- keeps _ (try_catch _ _) => apply kp_try_catch; [eauto | eauto | | intro]
    | |- keeps _ (m_iter _ _) => apply kp_m_iter; [eauto | eauto | intro]
    | |- keeps _ (ret _) => apply kp_ret; eauto
    | |- keeps _ (throw _) => apply kp_throw; eauto
    | |- keeps _ (gets _) => apply kp_gets; eauto
    | |- keeps _ (act _) => apply kp_act; eauto
    | |- keeps _ (modify _) => apply kp_modify; [eauto | eauto | intro]
    | |- keeps _ (to_s _) => apply kp_to_s; eauto
    | |- keeps _ (sio_emit _ _ _) => apply kp_sio_emit; eauto
    | |- keeps _ (if ?b then _ else _) => destruct b
    | |- keeps _ (match ?x with _ => _ end) => destruct x
    end).

Lemma same_conns_refl (a : state) : same_conns a a.
Proof. reflexivity. Qed.
Lemma same_conns_trans (a b c : state) : same_conns a b -> same_conns b c -> same_conns a c.
Proof. unfold same_conns. congruence. Qed.
#[local] Hint Resolve same_conns_refl same_conns_trans : core.

Lemma cleanup_keeps_conns : keeps same_conns cleanupEmptyGroups.
Proof.
  unfold cleanupEmptyGroups, getRoomClientCount. kp_solve; reflexivity.
Qed.

Lemma set_perma_twice (a b : list (string * json)) (st : state) :
  set_perma a (set_perma b st) = set_perma a st.
Proof. destruct st; reflexivity. Qed.

Lemma set_perma_id (st : state) : set_perma (perma st) st = st.
Proof. destruct st; reflexivity. Qed.

Lemma m_iter_perma {A} (f : A -> M unit) :
  (forall x st, exists p, f x st = (set_perma p st, [], Ok tt)) ->
  forall l st, exists p, m_iter f l st = (set_perma p st, [], Ok tt).
Proof.
  intros Hf l. induction l as [| x l IH]; intro st.
  - exists (perma st). rewrite set_perma_id. reflexivity.
  - cbn [m_iter]. unfold bind. destruct (Hf x st) as [p1 E1]. rewrite E1.
    destruct (IH (set_perma p1 st)) as [p2 E2]. rewrite E2. exists p2. rewrite set_perma_twice. reflexivity.
Qed.

Lemma cleanup_shape (st : state) :
  exists p, cleanupEmptyGroups st = (set_perma p st, [], Ok tt).
Proof.
  unfold cleanupEmptyGroups. unfold bind at 1, gets at 1. cbv beta iota.
  match goal with |- context [m_iter ?f ?l st] =>
    assert (Hf : forall x st', exists p, f x st' = (set_perma p st', [], Ok tt));
    [| destruct (m_iter_perma f Hf l st) as [p E]; rewrite E; exists p; reflexivity] end.
  intros r st'. cbv zeta. unfold bind, getRoomClientCount, gets. cbv beta iota.
  destruct (Nat.eqb _ 0).
  - eexists. reflexivity.
  - exists (perma st'). rewrite set_perma_id. reflexivity.
Qed.

Lemma on_disconnect_eq (sid : string) (st : state) :
  exists p, on_disconnect sid st =
    (mkState (fold_left (fun acc r => adapter_del r sid acc) (socket_rooms (rooms st) sid) (rooms st))
             (map_delete sid (conns st)) p, [], Ok tt).
Proof.
  unfold on_disconnect. unfold bind at 1, gets at 1. cbv beta iota.
  unfold bind at 1.
  rewrite (m_iter_rooms (sock_leave sid) (fun r acc => adapter_del r sid acc)) by reflexivity.
  unfold bind at 1.
  destruct (cleanup_shape (set_rooms (fold_left (fun acc r => adapter_del r sid acc)
              (socket_rooms (rooms st) sid) (rooms st)) st)) as [p E].
  rewrite E. exists p. reflexivity.
Qed.

Lemma step_conns (now : string) (o : op) (st : state) :
  let cs := conns (st_of (step now o st)) in
  match o with
  | OpConnect sid a => cs = map_set sid (mkConn sid now a) (conns st)
  | OpDisconnect sid => cs = map_delete sid (conns st)
  | _ => cs = conns st
  end.
Proof.
  destruct o as [sid ad | sid data | sid data | sid | sid | sid]; cbn [step].
  - reflexivity.
  - revert st. change (keeps same_conns (handleJoinGroup sid data now)).
    unfold handleJoinGroup, emit_error, destructure, setGroupPermalink, leave_previous_groups, sock_join, sock_leave.
    kp_solve; reflexivity.
  - revert st. change (keeps same_conns (handleLeaveGroup sid data now)).
    unfold handleLeaveGroup, emit_error, destructure, removeGroupPermalink, getRoomClientCount, sock_leave.
    kp_solve; reflexivity.
  - revert st. change (keeps same_conns (handleJoinPrescription sid now)).
    unfold handleJoinPrescription, emit_error, sock_join. kp_solve; reflexivity.
  - revert st. change (keeps same_conns (handleLeavePrescription sid now)).
    unfold handleLeavePrescription, emit_error, sock_leave. kp_solve; reflexivity.
  - destruct (on_disconnect_eq sid st) as [p ->]. reflexivity.
Qed.

(** X3: an operation of one socket changes neither the room membership nor the connection record of any other socket. *)
Theorem other_sockets_unaffected (now : string) (o : op) (st : state) (s r : string) :
  NoDup (map fst (rooms st)) -> s <> op_sid o ->
  is_member (rooms (st_of (step now o st))) r s = is_member (rooms st) r s /\
  map_get s (conns (st_of (step now o st))) = map_get s (conns st).
Proof.
  intros N Hs. pose proof (step_rooms now o st) as E. pose proof (step_conns now o st) as C.
  cbv zeta in E, C.
  assert (Ne : String.eqb s (op_sid o) = false) by (apply String.eqb_neq; exact Hs).
  destruct o as [sid a | sid data | sid data | sid | sid | sid]; cbn [op_sid] in Ne; cbv beta iota in E, C.
  - rewrite E, C, is_member_add, Ne, andb_false_r, map_get_set.
    rewrite Ne. auto.
  - rewrite C. split; [| reflexivity]. destruct E as [-> | [gs ->]]; [reflexivity |].
    rewrite (is_member_leave_join _ _ _ _ _ N), Ne, !andb_false_r. reflexivity.
  - rewrite C. split; [| reflexivity]. destruct E as [-> | [gs ->]]; [reflexivity |].
    rewrite (is_member_del _ _ _ _ _ N), Ne, andb_false_r. reflexivity.
  - rewrite C, E, is_member_add, Ne, andb_false_r. auto.
  - rewrite C, E, (is_member_del _ _ _ _ _ N), Ne, andb_false_r. auto.
  - rewrite C, E. split.
    + rewrite (proj2 (is_member_fold_del (fun _ => true) sid r s _ _ N)), Ne, andb_false_r. reflexivity.
    + apply map_get_delete_other. exact Hs.
Qed.

(** X4: a disconnect emits nothing, removes the socket from every room and from the connection table, and leaves other sockets as they were. *)
Theorem disconnect_forgets_socket (sid : string) (st : state) :
  NoDup (map fst (rooms st)) -> NoDup (map fst (conns st)) ->
  let r := run (on_disconnect sid) st in
  out_of r = [] /\ res_of r = Ok tt /\
  (forall room, is_member (rooms (st_of r)) room sid = false) /\
  (forall room s, s <> sid -> is_member (rooms (st_of r)) room s = is_member (rooms st) room s) /\
  map_get sid (conns (st_of r)) = None /\
  (forall s, s <> sid -> map_get s (conns (st_of r)) = map_get s (conns st)).
Proof.
  intros N NC r. unfold r, run. destruct (on_disconnect_eq sid st) as [p ->].
  unfold out_of, res_of, st_of; cbn [fst snd rooms conns].
  split; [reflexivity | split; [reflexivity | split; [| split; [| split]]]].
  - intro room.
    pose proof (proj2 (is_member_fold_del (fun _ => true) sid room sid (socket_rooms (rooms st) sid) _ N)) as E.
    cbv beta in E. refine (eq_trans E _). rewrite String.eqb_refl, andb_true_r, andb_true_l.
    destruct (is_member (rooms st) room sid) eqn:M; [| apply andb_false_r].
    apply (in_socket_rooms _ _ _ N) in M.
    assert (X : existsb (String.eqb room) (socket_rooms (rooms st) sid) = true).
    { apply existsb_exists. exists room. split; [exact M | apply String.eqb_refl]. }
    rewrite X. reflexivity.
  - intros room s Hs.
    pose proof (proj2 (is_member_fold_del (fun _ => true) sid room s (socket_rooms (rooms st) sid) _ N)) as E.
    cbv beta in E. refine (eq_trans E _).
    assert (Ne : String.eqb s sid = false) by (apply String.eqb_neq; exact Hs).
    rewrite Ne, andb_false_r. reflexivity.
  - apply map_get_delete_same, NC.
  - intros s Hs. apply map_get_delete_other. exact Hs.
Qed.

(** X5: after a connection, getConnection returns the new record, the socket is in its own room, nothing is emitted and other sockets are unchanged. *)
Theorem connect_registers (sid addr now : string) (st : state) :
  let r := run (on_connect sid addr now ;;; getConnection sid) st in
  res_of r = Ok (Some (mkConn sid now addr)) /\ out_of r = [] /\
  is_member (rooms (st_of r)) sid sid = true /\
  (forall room s, s <> sid -> is_member (rooms (st_of r)) room s = is_member (rooms st) room s) /\
  (forall s, s <> sid -> map_get s (conns (st_of r)) = map_get s (conns st)).
Proof.
  intro r. unfold r, run, on_connect, getConnection, sock_join, addConnection.
  cbv beta iota delta [bind modify gets res_of out_of st_of]. cbn [fst snd rooms conns set_rooms set_conns].
  rewrite map_get_set, String.eqb_refl.
  split; [reflexivity | split; [reflexivity | split; [| split]]].
  - rewrite is_member_add, !String.eqb_refl. reflexivity.
  - intros room s Hs. rewrite is_member_add.
    assert (Ne : String.eqb s sid = false) by (apply String.eqb_neq; exact Hs).
    rewrite Ne, andb_false_r. reflexivity.
  - intros s Hs. rewrite map_get_set.
    assert (Ne : String.eqb s sid = false) by (apply String.eqb_neq; exact Hs). rewrite Ne. reflexivity.
Qed.

Lemma ne_set (k : string) (v : list string) (m : adapter_rooms) :
  rooms_nonempty m = true -> v <> [] -> rooms_nonempty (map_set k v m) = true.
Proof.
  unfold rooms_nonempty. intros H Hv. induction m as [| [k0 v0] r IH]; cbn [map_set].
  - destruct v; [congruence | reflexivity].
  - cbn [forallb] in H |- *. apply andb_true_iff in H as [H0 H].
    destruct (String.eqb k k0); cbn [forallb].
    + rewrite H, andb_true_r. destruct v; [congruence | reflexivity].
    + rewrite H0. exact (IH H).
Qed.

Lemma ne_delete (k : string) (m : adapter_rooms) :
  rooms_nonempty m = true -> rooms_nonempty (map_delete k m) = true.
Proof.
  intro H. induction m as [| [k0 v0] r IH]; cbn [map_delete]; [reflexivity |].
  unfold rooms_nonempty in H |- *. cbn [forallb] in H. apply andb_true_iff in H as [H0 H].
  destruct (String.eqb k k0); [exact H |]. cbn [forallb]. rewrite H0. exact (IH H).
Qed.

Lemma ne_add (room sid : string) (rs : adapter_rooms) :
  rooms_nonempty rs = true -> rooms_nonempty (adapter_add room sid rs) = true.
Proof.
  intro H. unfold adapter_add. destruct (map_get room rs) as [ms|].
  - apply ne_set; [exact H |]. unfold set_add. destruct (set_mem sid ms) eqn:M.
    + destruct ms; [discriminate M | discriminate].
    + destruct ms; discriminate.
  - unfold rooms_nonempty in *. rewrite forallb_app, H. reflexivity.
Qed.

Lemma ne_del (room sid : string) (rs : adapter_rooms) :
  rooms_nonempty rs = true -> rooms_nonempty (adapter_del room sid rs) = true.
Proof.
  intro H. unfold adapter_del. destruct (map_get room rs) as [ms|]; [| exact H].
  destruct (set_delete sid ms) as [| y ys] eqn:D; [apply ne_delete, H |].
  apply ne_set; [exact H | discriminate].
Qed.

Lemma ne_fold_del (c : string -> bool) (sid : string) (l : list string) (acc : adapter_rooms) :
  rooms_nonempty acc = true ->
  rooms_nonempty (fold_left (fun acc room => if c room then adapter_del room sid acc else acc) l acc) = true.
Proof.
  revert acc; induction l as [| x l IH]; intros acc H; [exact H |].
  cbn [fold_left]. apply IH. destruct (c x); [apply ne_del |]; exact H.
Qed.

Lemma step_nonempty (now : string) (o : op) (st : state) :
  rooms_nonempty (rooms st) = true -> rooms_nonempty (rooms (st_of (step now o st))) = true.
Proof.
  intro H. pose proof (step_rooms now o st) as E. cbv zeta in E.
  destruct o as [sid a | sid data | sid data | sid | sid | sid]; cbv beta iota in E.
  - rewrite E. apply ne_add, H.
  - destruct E as [-> | [gs ->]]; [exact H |]. apply ne_add. unfold leave_groups.
    apply ne_fold_del, H.
  - destruct E as [-> | [gs ->]]; [exact H | apply ne_del, H].
  - rewrite E. apply ne_add, H.
  - rewrite E. apply ne_del, H.
  - rewrite E. exact (ne_fold_del (fun _ => true) sid _ _ H).
Qed.

Lemma exec_ops_nonempty (now : string) (ops : list op) (st : state) :
  rooms_nonempty (rooms st) = true -> rooms_nonempty (rooms (exec_ops now ops st)) = true.
Proof.
  revert st; induction ops as [| o ops IH]; intros st H; [exact H |].
  cbn [exec_ops]. apply IH. exact (step_nonempty now o st H).
Qed.

(** X1: from a state whose rooms are all non-empty, every room left after any sequence of operations has at least one member. *)
Theorem adapter_rooms_never_empty (now : string) (ops : list op) (st : state) :
  rooms_nonempty (rooms st) = true ->
  forall room, In room (map fst (rooms (exec_ops now ops st))) ->
  0 < room_count (rooms (exec_ops now ops st)) room.
Proof.
  intros H room Hin. pose proof (exec_ops_nonempty now ops st H) as N.
  revert N Hin. generalize (rooms (exec_ops now ops st)) as rs. intros rs N Hin.
  unfold room_count. induction rs as [| [k v] r IH]; [destruct Hin |].
  cbn [rooms_nonempty forallb] in N. unfold rooms_nonempty in IH. cbn [forallb snd] in N.
  apply andb_true_iff in N as [N0 N]. cbn [map_get].
  destruct (String.eqb_spec room k) as [-> | Ne].
  - destruct v; [discriminate N0 | cbn; lia].
  - apply IH; [exact N |]. destruct Hin as [E | Hin]; [simpl in E; congruence | exact Hin].
Qed.

Lemma m_iter_noop {S A} (f : A -> MS S unit) (l : list A) (st : S) :
  (forall x, In x l -> f x st = (st, [], Ok tt)) -> m_iter f l st = (st, [], Ok tt).
Proof.
  induction l as [| x l IH]; intro H; [reflexivity |].
  cbn [m_iter]. unfold bind. rewrite (H x (or_introl eq_refl)).
  rewrite IH by (intros y Hy; apply H; right; exact Hy). reflexivity.
Qed.

Lemma nonempty_count (rs : adapter_rooms) (room : string) :
  rooms_nonempty rs = true -> In room (map fst rs) -> 0 < room_count rs room.
Proof.
  intros N Hin. unfold room_count. induction rs as [| [k v] r IH]; [destruct Hin |].
  unfold rooms_nonempty in N, IH. cbn [forallb snd] in N.
  apply andb_true_iff in N as [N0 N]. cbn [map_get].
  destruct (String.eqb_spec room k) as [-> | Ne].
  - destruct v; [discriminate N0 | cbn; lia].
  - apply IH; [exact N |]. destruct Hin as [E | Hin]; [simpl in E; congruence | exact Hin].
Qed.

Lemma cleanup_noop (st : state) :
  rooms_nonempty (rooms st) = true -> cleanupEmptyGroups st = (st, [], Ok tt).
Proof.
  intro N. unfold cleanupEmptyGroups. unfold bind at 1, gets at 1. cbv beta iota.
  rewrite m_iter_noop; [reflexivity |].
  intros r Hr. cbv zeta. unfold bind, getRoomClientCount, gets. cbv beta iota.
  unfold group_room_names in Hr. apply filter_In in Hr as [Hr _].
  pose proof (nonempty_count _ _ N Hr) as C.
  destruct (Nat.eqb_spec (room_count (rooms st) r) 0) as [E | _]; [lia | reflexivity].
Qed.

(** X2: in every reachable state cleanupEmptyGroups finds nothing to do, so a disconnect never deletes a stored permalink. *)
Theorem disconnect_keeps_permalinks (now : string) (ops : list op) (sid : string) :
  let st := exec_ops now ops empty_state in
  run cleanupEmptyGroups st = (st, [], Ok tt) /\
  perma (st_of (run (on_disconnect sid) st)) = perma st.
Proof.
  intro st. assert (N : rooms_nonempty (rooms st) = true) by (apply exec_ops_nonempty; reflexivity).
  split; [apply cleanup_noop, N |].
  unfold run, on_disconnect. unfold bind at 1, gets at 1. cbv beta iota.
  unfold bind at 1.
  rewrite (m_iter_rooms (sock_leave sid) (fun r acc => adapter_del r sid acc)) by reflexivity.
  unfold bind at 1. rewrite cleanup_noop; [reflexivity |].
  exact (ne_fold_del (fun _ => true) sid _ _ N).
Qed.

Lemma map_set_get_id {V} (k : string) (v : V) (m : list (string * V)) :
  map_get k m = Some v -> map_set k v m = m.
Proof.
  induction m as [| [k0 v0] r IH]; cbn [map_get map_set]; [discriminate |].
  destruct (String.eqb_spec k k0) as [-> | _].
  - intro H. injection H as ->. reflexivity.
  - intro H. rewrite (IH H). reflexivity.
Qed.

Lemma adapter_add_idem (room sid : string) (rs : adapter_rooms) :
  adapter_add room sid (adapter_add room sid rs) = adapter_add room sid rs.
Proof.
  assert (G : exists ms, map_get room (adapter_add room sid rs) = Some ms /\ set_mem sid ms = true).
  { unfold adapter_add. destruct (map_get room rs) as [ms|] eqn:E.
    - exists (set_add sid ms). rewrite map_get_set, String.eqb_refl. split; [reflexivity |].
      rewrite set_mem_add, String.eqb_refl. reflexivity.
    - exists [sid]. rewrite map_get_app_new, E, String.eqb_refl. split; [reflexivity |].
      unfold set_mem. cbn. rewrite String.eqb_refl. reflexivity. }
  destruct G as (ms & E & M). unfold adapter_add at 1. rewrite E.
  unfold set_add. rewrite M. apply map_set_get_id, E.
Qed.

(** X6: joining the prescription room replies prescription-joined to the socket, adds it to that room only, and is idempotent. *)
Theorem join_prescription_effect (sid now : string) (st : state) :
  let r := run (handleJoinPrescription sid now) st in
  out_of r = [prescription_reply "prescription-joined" "Successfully joined prescription room" sid now] /\
  res_of r = Ok tt /\ conns (st_of r) = conns st /\ perma (st_of r) = perma st /\
  (forall room s, is_member (rooms (st_of r)) room s =
     (String.eqb room "prescription" && String.eqb s sid) || is_member (rooms st) room s) /\
  st_of (run (handleJoinPrescription sid now) (st_of r)) = st_of r.
Proof.
  intro r. unfold r, run, handleJoinPrescription, sock_join.
  cbv beta iota zeta delta [bind modify try_catch sio_emit reserved_event act existsb out_of res_of st_of].
  cbn [fst snd String.eqb set_rooms rooms conns perma Ascii.eqb Bool.eqb orb].
  split; [reflexivity | split; [reflexivity | split; [reflexivity | split; [reflexivity | split]]]].
  - intros room s. apply is_member_add.
  - rewrite adapter_add_idem. reflexivity.
Qed.

(** X7: leaving the prescription room replies prescription-left and removes only that membership. *)
Theorem leave_prescription_effect (sid now : string) (st : state) :
  NoDup (map fst (rooms st)) ->
  let r := run (handleLeavePrescription sid now) st in
  out_of r = [prescription_reply "prescription-left" "Successfully left prescription room" sid now] /\
  res_of r = Ok tt /\ conns (st_of r) = conns st /\ perma (st_of r) = perma st /\
  (forall room s, is_member (rooms (st_of r)) room s =
     negb (String.eqb room "prescription" && String.eqb s sid) && is_member (rooms st) room s).
Proof.
  intros N r. unfold r, run, handleLeavePrescription, sock_leave.
  cbv beta iota zeta delta [bind modify try_catch sio_emit reserved_event act existsb out_of res_of st_of].
  cbn [fst snd String.eqb set_rooms rooms conns perma Ascii.eqb Bool.eqb orb].
  split; [reflexivity | split; [reflexivity | split; [reflexivity | split; [reflexivity |]]]].
  intros room s. apply is_member_del, N.
Qed.

(** X8: the outcomes of leave-group: missing or null data and an unprintable groupId give an error and no change; otherwise the membership is dropped and the permalink is deleted exactly when the room is left empty. *)
Theorem leave_group_outcomes (sid now : string) (st : state) :
  (forall data, data = None \/ data = Some JNull ->
     run (handleLeaveGroup sid data now) st = (st, [error_reply sid "Failed to leave group"], Ok tt)) /\
  (forall d, d <> JNull -> tostr_u (get_prop d "groupId") = None ->
     run (handleLeaveGroup sid (Some d) now) st = (st, [error_reply sid "Failed to leave group"], Ok tt)) /\
  (forall d, d <> JNull -> get_prop d "groupId" = None ->
     out_of (run (handleLeaveGroup sid (Some d) now) st) =
       [Send (ToSocket sid) (JStr "left-group")
          [JObj [("roomName", JStr "group_undefined"); ("timestamp", JStr now)]]]) /\
  (forall d gs, NoDup (map fst (rooms st)) -> d <> JNull -> tostr_u (get_prop d "groupId") = Some gs ->
     let st' := st_of (run (handleLeaveGroup sid (Some d) now) st) in
     res_of (run (handleLeaveGroup sid (Some d) now) st) = Ok tt /\
     (forall room s, is_member (rooms st') room s =
        negb (String.eqb room ("group_" ++ gs) && String.eqb s sid) && is_member (rooms st) room s) /\
     conns st' = conns st /\
     perma st' = if Nat.eqb (room_count (rooms st') ("group_" ++ gs)) 0
                 then map_delete gs (perma st) else perma st).
Proof.
  split; [| split; [| split]].
  - intros data [-> | ->]; reflexivity.
  - intros d Hn Si. unfold run, handleLeaveGroup. rewrite (destructure_some d Hn).
    cbv beta iota zeta delta [bind ret act gets modify throw try_catch sio_emit to_s emit_error].
    rewrite Si. reflexivity.
  - intros d Hn Hg. unfold run. rewrite (handleLeaveGroup_ok sid d now "undefined" st Hn);
      [| rewrite Hg; reflexivity].
    rewrite Hg. reflexivity.
  - intros d gs N Hn Si st'. unfold st', run. rewrite (handleLeaveGroup_ok sid d now gs st Hn Si).
    unfold res_of, st_of; cbn [fst snd rooms conns perma].
    split; [reflexivity | split; [intros room s; apply is_member_del, N | split; reflexivity]].
Qed.

(** X9: getGroupPermalink after setGroupPermalink returns the stored link for keys of the same string form, and removeGroupPermalink makes it undefined. *)
Theorem permalink_store_roundtrip (a b : option json) (n : json) (k k' : string) (st : state) :
  tostr_u a = Some k -> tostr_u b = Some k' -> tostr n <> None ->
  res_of (run (setGroupPermalink a (Some n) ;;; getGroupPermalink b) st) =
    Ok (if String.eqb k' k then Some n else map_get k' (perma st)) /\
  (NoDup (map fst (perma st)) ->
   res_of (run (removeGroupPermalink a ;;; getGroupPermalink b) st) =
     Ok (if String.eqb k' k then None else map_get k' (perma st))).
Proof.
  intros Ha Hb Hn. split.
  - unfold run, setGroupPermalink, getGroupPermalink.
    cbv beta iota zeta delta [bind ret gets modify throw to_s res_of].
    rewrite Ha, Hb. cbn [tostr_u]. destruct (tostr n) as [sn|]; [| congruence].
    cbn [snd perma set_perma]. rewrite map_get_set. reflexivity.
  - intro N. unfold run, removeGroupPermalink, getGroupPermalink.
    cbv beta iota zeta delta [bind ret gets modify throw to_s res_of].
    rewrite Ha, Hb. cbn [snd perma set_perma].
    destruct (String.eqb_spec k' k) as [-> | Ne].
    + rewrite map_get_delete_same by exact N. reflexivity.
    + rewrite map_get_delete_other by exact Ne. reflexivity.
Qed.

Lemma permalink_store_roundtrip_witness :
  tostr_u (Some (JNum 7 0)) = Some "7" /\ tostr_u (Some (JStr "7")) = Some "7" /\
  tostr (JStr "/display/7") <> None /\
  res_of (run (setGroupPermalink (Some (JNum 7 0)) (Some (JStr "/display/7")) ;;;
               getGroupPermalink (Some (JStr "7"))) empty_state) = Ok (Some (JStr "/display/7")).
Proof.
  split; [reflexivity | split; [reflexivity | split; [discriminate |]]].
  exact (proj1 (permalink_store_roundtrip (Some (JNum 7 0)) (Some (JStr "7")) (JStr "/display/7") "7" "7"
                  empty_state eq_refl eq_refl ltac:(discriminate))).
Defined.

Lemma lm_iter_rooms (g : string -> Legacy.LM unit) (f : string -> adapter_rooms -> adapter_rooms)
      (l : list string) (lst : Legacy.lstate) :
  (forall room st', g room st' = (Legacy.mkLState (f room (Legacy.lrooms st')) (Legacy.lconns st'), [], Ok tt)) ->
  m_iter g l lst =
    (Legacy.mkLState (fold_left (fun acc r => f r acc) l (Legacy.lrooms lst)) (Legacy.lconns lst), [], Ok tt).
Proof.
  intro Hg. revert lst; induction l as [| x l IH]; intro lst.
  - destruct lst; reflexivity.
  - cbn [m_iter fold_left]. unfold bind. rewrite Hg, IH. reflexivity.
Qed.

Lemma legacy_join_ok (sid : string) (d : json) (now gs : string) (lst : Legacy.lstate) :
  d <> JNull ->
  truthy (get_prop d "groupId") = true ->
  tostr_u (get_prop d "groupId") = Some gs ->
  exists O,
  Legacy.join_group sid (Some d) now lst =
    (Legacy.mkLState (adapter_add ("group_" ++ gs) sid (leave_groups sid (Legacy.lrooms lst))) (Legacy.lconns lst),
     Send (ToSocket sid) (JStr "joined-group") [joined_payload d gs now] :: O, Ok tt) /\
  (O = [] <-> tostr_u (get_prop d "groupName") <> None) /\
  (O = [error_reply sid "Failed to join group"] <-> tostr_u (get_prop d "groupName") = None).
Proof.
  intros Hn Ti Si. unfold Legacy.join_group, joined_payload. rewrite (destructure_some d Hn).
  cbv beta iota zeta delta [bind ret act gets modify throw try_catch sio_emit to_s Legacy.ljoin Legacy.lemit_error].
  rewrite Ti, Si. cbn [negb].
  rewrite (lm_iter_rooms _ (fun room acc => if negb (String.eqb room sid) && starts_with "group_" room
                                       then adapter_del room sid acc else acc)).
  2: { intros room st'. destruct (negb (String.eqb room sid) && starts_with "group_" room).
       - reflexivity.
       - destruct st'; reflexivity. }
  cbv beta iota. fold (leave_groups sid (Legacy.lrooms lst)).
  destruct (tostr_u (get_prop d "groupName")) as [sn|].
  - exists []. split; [reflexivity | split; [split; [discriminate | reflexivity] | split; discriminate]].
  - exists [error_reply sid "Failed to join group"].
    split; [reflexivity | split; [split; [discriminate | congruence] | split; reflexivity]].
Qed.

Lemma tostr_none_truthy (n : json) : tostr n = None -> truthy (Some n) = true.
Proof. destruct n; try discriminate; reflexivity. Qed.

(** X19: a join-group whose groupName cannot be stringified: the modular handler stores the permalink without joining and replies only an error; the legacy one joins and replies joined-group before the error. *)
Theorem join_unprintable_name (sid now gs : string) (d n : json) (st : state) (lst : Legacy.lstate) :
  d <> JNull -> truthy (get_prop d "groupId") = true -> tostr_u (get_prop d "groupId") = Some gs ->
  get_prop d "groupName" = Some n -> tostr n = None ->
  run (handleJoinGroup sid (Some d) now) st =
    (set_perma (map_set gs n (perma st)) st, [error_reply sid "Failed to join group"], Ok tt) /\
  run (Legacy.join_group sid (Some d) now) lst =
    (Legacy.mkLState (adapter_add ("group_" ++ gs) sid (leave_groups sid (Legacy.lrooms lst))) (Legacy.lconns lst),
     [Send (ToSocket sid) (JStr "joined-group") [joined_payload d gs now];
      error_reply sid "Failed to join group"], Ok tt).
Proof.
  intros Hn Ti Si Hgn Tn. split.
  - unfold run, handleJoinGroup. rewrite (destructure_some d Hn).
    cbv beta iota zeta delta [bind ret act gets modify throw try_catch sio_emit to_s setGroupPermalink emit_error].
    rewrite Ti, Si, Hgn, (tostr_none_truthy n Tn). cbn [negb tostr_u]. rewrite Tn. reflexivity.
  - destruct (legacy_join_ok sid d now gs lst Hn Ti Si) as (O & E & _ & [_ HO]).
    unfold run. rewrite E, HO; [reflexivity |]. rewrite Hgn. exact Tn.
Qed.

Lemma join_unprintable_name_witness :
  let d := JObj [("groupId", JNum 4 0); ("groupName", JObj [("toString", JNum 1 0)])] in
  run (handleJoinGroup "s" (Some d) "t") empty_state =
    (set_perma (map_set "4" (JObj [("toString", JNum 1 0)]) []) empty_state,
     [error_reply "s" "Failed to join group"], Ok tt) /\
  run (Legacy.join_group "s" (Some d) "t") (Legacy.mkLState [] []) =
    (Legacy.mkLState (adapter_add "group_4" "s" (leave_groups "s" [])) [],
     [Send (ToSocket "s") (JStr "joined-group") [joined_payload d "4" "t"];
      error_reply "s" "Failed to join group"], Ok tt).
Proof.
  intro d.
  exact (join_unprintable_name "s" "t" "4" d (JObj [("toString", JNum 1 0)]) empty_state (Legacy.mkLState [] [])
           ltac:(discriminate) eq_refl eq_refl eq_refl eq_refl).
Defined.

(** X20: on equal rooms the legacy and modular join-group (printable name), leave-group, prescription and ping handlers emit the same events and leave the same rooms. *)
Theorem legacy_handlers_agree (sid now : string) (st : state) (lst : Legacy.lstate) :
  Legacy.lrooms lst = rooms st ->
  (forall data, (forall d, data = Some d -> tostr_u (get_prop d "groupName") <> None) ->
     agree_on st lst (handleJoinGroup sid data now) (Legacy.join_group sid data now)) /\
  (forall data, agree_on st lst (handleLeaveGroup sid data now) (Legacy.leave_group sid data now)) /\
  agree_on st lst (handleJoinPrescription sid now) (Legacy.join_prescription sid now) /\
  agree_on st lst (handleLeavePrescription sid now) (Legacy.leave_prescription sid now) /\
  agree_on st lst (handle_ping sid now) (Legacy.specific_handler sid "ping" [] now).
Proof.
  intro H. unfold agree_on. split; [| split; [| split; [| split]]].
  - intros data Hname. destruct data as [d|]; [| split; [reflexivity | exact H]].
    destruct (json_eq_null d) as [-> | Hn]; [split; [reflexivity | exact H] |].
    specialize (Hname d eq_refl).
    destruct (truthy (get_prop d "groupId")) eqn:Ti.
    + destruct (tostr_u (get_prop d "groupId")) as [gs|] eqn:Si.
      * destruct (legacy_join_ok sid d now gs lst Hn Ti Si) as (O & E & [_ HO] & _).
        rewrite E, (handleJoinGroup_ok sid d now gs st Hn Ti Si Hname), (HO Hname), H.
        split; reflexivity.
      * unfold handleJoinGroup, Legacy.join_group. rewrite !(destructure_some d Hn).
        cbv beta iota zeta delta [bind ret act gets modify throw try_catch sio_emit to_s emit_error
                                  Legacy.lemit_error st_of out_of].
        rewrite Ti, Si. split; [reflexivity | exact H].
    + rewrite (handleJoinGroup_missing sid d now st Hn Ti).
      unfold Legacy.join_group. rewrite (destructure_some d Hn).
      cbv beta iota zeta delta [bind ret act gets modify throw try_catch sio_emit to_s Legacy.lemit_error
                                st_of out_of].
      rewrite Ti. split; [reflexivity | exact H].
  - intro data. destruct data as [d|]; [| split; [reflexivity | exact H]].
    destruct (json_eq_null d) as [-> | Hn]; [split; [reflexivity | exact H] |].
    destruct (tostr_u (get_prop d "groupId")) as [gs|] eqn:Si.
    + rewrite (handleLeaveGroup_ok sid d now gs st Hn Si).
      unfold Legacy.leave_group. rewrite (destructure_some d Hn).
      cbv beta iota zeta delta [bind ret act gets modify throw try_catch sio_emit to_s Legacy.lleave
                                st_of out_of].
      rewrite Si, H. split; reflexivity.
    + unfold handleLeaveGroup, Legacy.leave_group. rewrite !(destructure_some d Hn).
      cbv beta iota zeta delta [bind ret act gets modify throw try_catch sio_emit to_s emit_error
                                Legacy.lemit_error st_of out_of].
      rewrite Si. split; [reflexivity | exact H].
  - cbv beta iota zeta delta [handleJoinPrescription Legacy.join_prescription bind ret act gets modify
      try_catch sio_emit sock_join Legacy.ljoin st_of out_of reserved_event existsb].
    cbn. rewrite H. split; reflexivity.
  - cbv beta iota zeta delta [handleLeavePrescription Legacy.leave_prescription bind ret act gets modify
      try_catch sio_emit sock_leave Legacy.lleave st_of out_of reserved_event existsb].
    cbn. rewrite H. split; reflexivity.
  - split; [reflexivity | exact H].
Qed.

(** X14: the GET /displays/active response reports success, its timestamp, and a total equal both to the number of displays and to the number of group rooms. *)
Theorem displays_active_total (now ts : string) (ops : list op) (resp : active_response) :
  let st := exec_ops now ops empty_state in
  displays_active_response st now ts resp ->
  success resp = true /\ timestamp resp = ts /\
  totalActiveDisplays resp = List.length (displays resp) /\
  totalActiveDisplays resp = List.length (group_room_names st).
Proof.
  intros st (ds & [P _] & ->). cbn [success timestamp totalActiveDisplays displays displays_active_body].
  split; [reflexivity | split; [reflexivity | split; [reflexivity |]]].
  rewrite <- (Permutation_length P).
  assert (N : rooms_nonempty (rooms st) = true) by (apply exec_ops_nonempty; reflexivity).
  rewrite forallb_filter_id.
  - apply length_map.
  - apply forallb_forall. intros x Hx. apply in_map_iff in Hx as (r & <- & Hr).
    unfold display_of. cbv zeta. cbn [isActive]. apply Nat.ltb_lt.
    apply nonempty_count; [exact N |]. unfold group_room_names in Hr. apply filter_In in Hr. apply Hr.
Qed.
Ltac dig_lia := match goal with |- context [Z.of_nat (nat_of_ascii ?c - 48)] => let w := eval vm_compute in (Z.of_nat (nat_of_ascii c - 48)) in change (Z.of_nat (nat_of_ascii c - 48)) with w end; lia.

Lemma uint_digits (d : Decimal.uint) :
  exists ds,
    take_radix_digits 10 (list_ascii_of_string (NilEmpty.string_of_uint d)) = (ds, []) /\
    (forall acc, fold_left (fun a x => a * 10 + x)%Z ds (Zpos acc) = Zpos (Pos.of_uint_acc d acc)) /\
    fold_left (fun a x => a * 10 + x)%Z ds 0%Z = Z.of_N (Pos.of_uint d).
Proof.
  induction d as [| d IH | d IH | d IH | d IH | d IH | d IH | d IH | d IH | d IH | d IH ];
    [exists []; split; [reflexivity | split; reflexivity] | ..];
  destruct IH as (ds & E & F & G); eexists; (split;
  [ cbn [NilEmpty.string_of_uint list_ascii_of_string take_radix_digits]; rewrite E; reflexivity
  | (split;
    [ intro acc; cbn [fold_left Pos.of_uint_acc]; rewrite <- F; f_equal; dig_lia
    | cbn [fold_left Pos.of_uint];
      first [ rewrite <- G; f_equal; dig_lia | cbn [Z.of_N]; rewrite <- F; f_equal; dig_lia ] ]) ]).
Qed.

Lemma all_digits_uint (u : Decimal.uint) :
  forallb is_digit (list_ascii_of_string (NilEmpty.string_of_uint u)) = true.
Proof. induction u; cbn [NilEmpty.string_of_uint list_ascii_of_string forallb]; try rewrite IHu; reflexivity. Qed.

Lemma digit_not_x (x : ascii) : is_digit x = true -> Ascii.eqb x "x" || Ascii.eqb x "X" = false.
Proof.
  intro H. destruct (Ascii.eqb_spec x "x") as [->|_]; [discriminate H|].
  destruct (Ascii.eqb_spec x "X") as [->|_]; [discriminate H | reflexivity].
Qed.

Lemma parseInt_digit_string (neg : bool) (c : ascii) (r : lchars) :
  is_digit c = true -> forallb is_digit r = true ->
  parseInt (string_of_list_ascii ((if neg then ["-"%char] else []) ++ c :: r)) =
  match fst (take_radix_digits 10 (c :: r)) with
  | [] => None
  | ds => Some (let v := fold_left (fun acc d => acc * 10 + d)%Z ds 0%Z in if neg then - v else v)%Z
  end.
Proof.
  intros Hc Hr. unfold parseInt. rewrite list_ascii_of_string_of_list_ascii.
  destruct c as [[] [] [] [] [] [] [] []]; try discriminate Hc; destruct neg; simpl;
    try reflexivity;
    (destruct r as [|x r']; [reflexivity|];
     simpl in Hr; apply andb_true_iff in Hr as [Hx _]; rewrite (digit_not_x x Hx); reflexivity).
Qed.

Lemma parseInt_num_to_string (n : Z) : parseInt (num_to_string n 0) = Some n.
Proof.
  assert (Hs : num_to_string n 0 = Z_to_string n).
  { unfold num_to_string. destruct (n =? 0)%Z eqn:E.
    - apply Z.eqb_eq in E. subst. reflexivity.
    - cbn. rewrite Z.mul_1_r. reflexivity. }
  rewrite Hs. unfold Z_to_string. destruct n as [| p | p]; [reflexivity | |].
  all: cbn [Z.to_int NilEmpty.string_of_int];
    destruct (uint_digits (Pos.to_uint p)) as (ds & E & _ & G);
    rewrite DecimalPos.Unsigned.of_to in G; cbn [Z.of_N] in G;
    pose proof (all_digits_uint (Pos.to_uint p)) as D;
    destruct (list_ascii_of_string (NilEmpty.string_of_uint (Pos.to_uint p))) as [|c r] eqn:Ecs;
    [ cbn in E; injection E as <-; discriminate G | ];
    cbn [forallb] in D; apply andb_true_iff in D as [Dc Dr].
  - rewrite <- (string_of_list_ascii_of_string (NilEmpty.string_of_uint (Pos.to_uint p))), Ecs.
    pose proof (parseInt_digit_string false c r Dc Dr) as P; cbn [app] in P.
    rewrite P, E. cbn [fst].
    destruct ds as [|d ds]; [discriminate G|]. rewrite G. reflexivity.
  - replace (String "-" (NilEmpty.string_of_uint (Pos.to_uint p)))
      with (string_of_list_ascii ((if true then ["-"%char] else []) ++ c :: r)%list)
      by (rewrite <- Ecs; cbn [app string_of_list_ascii]; rewrite string_of_list_ascii_of_string; reflexivity).
    rewrite (parseInt_digit_string true c r Dc Dr), E. cbn [fst].
    destruct ds as [|d ds]; [discriminate G|]. rewrite G. reflexivity.
Qed.

(** X18: a group joined with a safe integer groupId n is listed with groupNumber n: parseInt inverts the number-to-string conversion on integers. *)
Theorem integer_group_number (n : Z) (st : state) (now gs : string) :
  (Z.abs n < 2 ^ 53)%Z ->
  tostr_u (Some (JNum n 0)) = Some gs ->
  groupNumber (display_of st now ("group_" ++ gs)) = Some n.
Proof.
  intros _ H. cbn [tostr_u tostr] in H. injection H as <-.
  unfold display_of. cbn [groupNumber]. rewrite replace_group_prefix.
  apply parseInt_num_to_string.
Qed.

Lemma integer_group_number_witness :
  groupNumber (display_of empty_state "t" ("group_" ++ "12")) = Some 12%Z.
Proof. apply (integer_group_number 12 empty_state "t" "12"); [lia | reflexivity]. Defined.

(** X15: the backup pmessage listener throws on malformed JSON or null, throws when the event cannot be stringified, and otherwise emits exactly channel:event with the data (null when absent); the reserved-name check never fires. *)
Theorem backup_pmessage_outcome {S} (st : S) (channel message : string) :
  Backup.on_pmessage channel message st =
  match json_parse message with
  | None => (st, [], Err SyntaxError)
  | Some JNull => (st, [], Err TypeError)
  | Some p =>
      match tostr_u (get_prop p "event") with
      | Some ev =>
          (st, [Send ToAll (JStr (channel ++ ":" ++ ev))
                  [match get_prop p "data" with Some x => x | None => JNull end]], Ok tt)
      | None => (st, [], Err TypeError)
      end
  end.
Proof.
  unfold Backup.on_pmessage.
  destruct (json_parse message) as [p|]; [|reflexivity].
  assert (G : forall p', p' <> JNull ->
    (ev <- to_s (get_prop p' "event") ;;
     sio_emit ToAll (JStr (channel ++ ":" ++ ev))
       [match get_prop p' "data" with Some x => x | None => JNull end]) st =
    match tostr_u (get_prop p' "event") with
    | Some ev => (st, [Send ToAll (JStr (channel ++ ":" ++ ev))
                   [match get_prop p' "data" with Some x => x | None => JNull end]], Ok tt)
    | None => (st, [], Err TypeError)
    end).
  { intros p' _. unfold to_s, bind. destruct (tostr_u (get_prop p' "event")) as [ev|]; [|reflexivity].
    unfold ret, sio_emit. rewrite colon_not_reserved. reflexivity. }
  destruct p; try reflexivity; apply G; discriminate.
Qed.

(** X16: POST /broadcast answers with a single 400 or 500, or emits once the truthy, non-reserved event and data of the body (to the rooms of a truthy room, else to all) and then answers 200 or 500. *)
Theorem broadcast_route_shape (body : json) (now : string) :
  Legacy.post_broadcast body now = [Legacy.bad_request] \/
  Legacy.post_broadcast body now = [Legacy.broadcast_failed] \/
  exists t ev dt r,
    Legacy.post_broadcast body now = [Legacy.BEmit t ev dt; r] /\
    get_prop body "event" = Some ev /\ get_prop body "data" = Some dt /\
    truthy (Some ev) = true /\ truthy (Some dt) = true /\ reserved_event ev = false /\
    t = (if truthy (get_prop body "room")
         then match get_prop body "room" with
              | Some rm => Legacy.BRooms (Legacy.room_list rm)
              | None => Legacy.BAll
              end
         else Legacy.BAll) /\
    (r = Legacy.broadcast_failed \/
     exists msg, r = Legacy.Respond 200
       (JObj [("success", JBool true); ("message", msg);
              ("target", Legacy.or_all_clients (get_prop body "room"));
              ("timestamp", JStr now)])).
Proof.
  unfold Legacy.post_broadcast.
  destruct body as [| b | m e | s | l | kvs];
    [right; left; reflexivity | ..];
  set (ev := get_prop _ "event"); set (dt := get_prop _ "data"); set (rm := get_prop _ "room");
  (destruct (negb (truthy ev) || negb (truthy dt)) eqn:Hf; [left; reflexivity|]);
  apply orb_false_iff in Hf as [He Hd]; apply negb_false_iff in He, Hd;
  (destruct ev as [e'|]; [|discriminate He]); (destruct dt as [d'|]; [|discriminate Hd]);
  (destruct (reserved_event e') eqn:Hr; [right; left; reflexivity|]);
  right; right;
  (destruct (if truthy rm && negb (Legacy.is_prescription_room rm)
             then match tostr_u rm with Some _ => true | None => false end else true);
   [destruct (tostr_u (Some e')) as [evs|] |]);
  clearbody rm; (destruct rm as [r'|]; [destruct (truthy (Some r')) eqn:Tr|]);
  (eexists; exists e', d'; eexists; split; [reflexivity|]);
  (split; [reflexivity|]); (split; [reflexivity|]);
  (split; [exact He|]); (split; [exact Hd|]); (split; [exact Hr|]);
  (split; [try rewrite Tr; reflexivity|]);
  first [right; eexists; reflexivity | left; reflexivity].
Qed.

(** X17: POST /broadcast with a non-empty string event, truthy data and a string room or none emits to that room (or all clients) and returns the 200 body naming the event and target. *)
Theorem broadcast_string_success (body : json) (now evs : string) (data : json) :
  get_prop body "event" = Some (JStr evs) ->
  get_prop body "data" = Some data ->
  evs <> "" -> truthy (Some data) = true ->
  reserved_event (JStr evs) = false ->
  Legacy.post_broadcast body now =
  match get_prop body "room" with
  | Some (JStr r) =>
      if String.eqb r "" then
        [Legacy.BEmit Legacy.BAll (JStr evs) data;
         Legacy.Respond 200 (JObj [("success", JBool true);
           ("message", JStr ("Event " ++ evs ++ " broadcasted successfully"));
           ("target", JStr "all clients"); ("timestamp", JStr now)])]
      else
        [Legacy.BEmit (Legacy.BRooms [JStr r]) (JStr evs) data;
         Legacy.Respond 200 (JObj [("success", JBool true);
           ("message", JStr ("Event " ++ evs ++ " broadcasted successfully"));
           ("target", JStr r); ("timestamp", JStr now)])]
  | None =>
      [Legacy.BEmit Legacy.BAll (JStr evs) data;
       Legacy.Respond 200 (JObj [("success", JBool true);
         ("message", JStr ("Event " ++ evs ++ " broadcasted successfully"));
         ("target", JStr "all clients"); ("timestamp", JStr now)])]
  | Some _ => Legacy.post_broadcast body now
  end.
Proof.
  intros He Hd Hne Ht Hr.
  destruct (get_prop body "room") as [[| | | r | |]|] eqn:Hrm; try reflexivity;
  (destruct body as [| b | m e | s | l | kvs]; [discriminate He | ..]);
  unfold Legacy.post_broadcast; rewrite He, Hd, Hrm, Ht;
  cbn [truthy negb orb]; apply String.eqb_neq in Hne; rewrite Hne; cbn [negb orb]; rewrite Hr;
  try reflexivity;
  (destruct (String.eqb r "") eqn:Er; cbn [andb Legacy.room_list Legacy.or_all_clients truthy negb tostr_u tostr];
     rewrite ?Er; cbn [negb andb]; [reflexivity|];
     destruct (Legacy.is_prescription_room (Some (JStr r))); reflexivity).
Qed.

Lemma broadcast_string_success_witness :
  Legacy.post_broadcast (JObj [("event", JStr "update"); ("data", JNum 5 0); ("room", JStr "group_1")]) "t" =
  [Legacy.BEmit (Legacy.BRooms [JStr "group_1"]) (JStr "update") (JNum 5 0);
   Legacy.Respond 200 (JObj [("success", JBool true);
     ("message", JStr ("Event " ++ "update" ++ " broadcasted successfully"));
     ("target", JStr "group_1"); ("timestamp", JStr "t")])].
Proof.
  apply (broadcast_string_success (JObj [("event", JStr "update"); ("data", JNum 5 0); ("room", JStr "group_1")])
           "t" "update" (JNum 5 0)); [reflexivity | reflexivity | discriminate | reflexivity | reflexivity].
Defined.

Lemma antrian_channel_never_global_witness :
  st_of (run (on_bus_message "garbage" "antrian.group.3") empty_state) = empty_state /\
  res_of (run (on_bus_message "garbage" "antrian.group.3") empty_state) = Ok tt /\
  (forall t n a, In (Send t n a) (out_of (run (on_bus_message "garbage" "antrian.group.3") empty_state)) ->
     t = ToRoom "prescription" \/
     exists g, extractGroupIdFromChannel "antrian.group.3" = Some g /\ t = ToRoom ("group_" ++ g)).
Proof. apply (antrian_channel_never_global "garbage" "antrian.group.3" empty_state). reflexivity. Defined.

Lemma other_sockets_unaffected_witness :
  let st := exec_ops "t" [OpConnect "a" "ip"; OpConnect "b" "ip"; OpJoinGroup "b" (Some (gid 2))] empty_state in
  let o := OpJoinGroup "a" (Some (gid 2)) in
  is_member (rooms (st_of (step "t" o st))) "group_2" "b" = is_member (rooms st) "group_2" "b" /\
  map_get "b" (conns (st_of (step "t" o st))) = map_get "b" (conns st).
Proof.
  intros st o. apply (other_sockets_unaffected "t" o st "b" "group_2").
  - vm_compute. repeat constructor; cbn; intuition discriminate.
  - discriminate.
Defined.

Lemma disconnect_forgets_socket_witness :
  let st := exec_ops "t" [OpConnect "a" "ip"; OpConnect "b" "ip"; OpJoinGroup "a" (Some (gid 2));
                          OpJoinGroup "b" (Some (gid 2))] empty_state in
  let r := run (on_disconnect "a") st in
  out_of r = [] /\ res_of r = Ok tt /\
  (forall room, is_member (rooms (st_of r)) room "a" = false) /\
  (forall room s, s <> "a" -> is_member (rooms (st_of r)) room s = is_member (rooms st) room s) /\
  map_get "a" (conns (st_of r)) = None /\
  (forall s, s <> "a" -> map_get s (conns (st_of r)) = map_get s (conns st)).
Proof.
  intros st. apply (disconnect_forgets_socket "a" st).
  - vm_compute. repeat constructor; cbn; intuition discriminate.
  - vm_compute. repeat constructor; cbn; intuition discriminate.
Defined.

Lemma adapter_rooms_never_empty_witness :
  let ops := [OpConnect "a" "ip"; OpJoinGroup "a" (Some (gid 1)); OpJoinGroup "a" (Some (gid 2));
              OpJoinPrescription "b"; OpLeavePrescription "a"] in
  In "group_2" (map fst (rooms (exec_ops "t" ops empty_state))) /\
  0 < room_count (rooms (exec_ops "t" ops empty_state)) "group_2".
Proof.
  intros ops.
  assert (I2 : In "group_2" (map fst (rooms (exec_ops "t" ops empty_state)))) by (vm_compute; tauto).
  split; [exact I2 |].
  apply (adapter_rooms_never_empty "t" ops empty_state); [reflexivity | exact I2].
Defined.

Lemma leave_prescription_effect_witness :
  let st := exec_ops "t" [OpConnect "a" "ip"; OpJoinPrescription "a"] empty_state in
  let r := run (handleLeavePrescription "a" "t") st in
  out_of r = [prescription_reply "prescription-left" "Successfully left prescription room" "a" "t"] /\
  res_of r = Ok tt /\ conns (st_of r) = conns st /\ perma (st_of r) = perma st /\
  (forall room s, is_member (rooms (st_of r)) room s =
     negb (String.eqb room "prescription" && String.eqb s "a") && is_member (rooms st) room s).
Proof.
  intros st. apply (leave_prescription_effect "a" "t" st).
  vm_compute. repeat constructor; cbn; intuition discriminate.
Defined.

Lemma legacy_handlers_agree_witness :
  let st := exec_ops "t" [OpConnect "a" "ip"; OpJoinGroup "a" (Some (gid 1))] empty_state in
  let lst := Legacy.mkLState (rooms st) [] in
  (forall data, (forall d, data = Some d -> tostr_u (get_prop d "groupName") <> None) ->
     agree_on st lst (handleJoinGroup "a" data "t") (Legacy.join_group "a" data "t")) /\
  (forall data, agree_on st lst (handleLeaveGroup "a" data "t") (Legacy.leave_group "a" data "t")) /\
  agree_on st lst (handleJoinPrescription "a" "t") (Legacy.join_prescription "a" "t") /\
  agree_on st lst (handleLeavePrescription "a" "t") (Legacy.leave_prescription "a" "t") /\
  agree_on st lst (handle_ping "a" "t") (Legacy.specific_handler "a" "ping" [] "t").
Proof. intros st lst. apply (legacy_handlers_agree "a" "t" st lst). reflexivity. Defined.

Lemma displays_active_total_witness :
  let st := exec_ops "t" [OpConnect "a" "ip"; OpJoinGroup "a" (Some (gid 3))] empty_state in
  let resp := displays_active_body (getActiveDisplays st "t") "ts" in
  success resp = true /\ timestamp resp = "ts" /\
  totalActiveDisplays resp = List.length (displays resp) /\
  totalActiveDisplays resp = List.length (group_room_names st).
Proof.
  intros st resp.
  apply (displays_active_total "t" "ts" [OpConnect "a" "ip"; OpJoinGroup "a" (Some (gid 3))] resp).
  exists (getActiveDisplays st "t"). split; [apply getActiveDisplays_admissible | reflexivity].
Defined.
